(** * scrape_nature.py: a shallow embedding and its verified properties

    The first half embeds the program, module by module:

    - [Str]        Python [str] values as lists of Unicode code points, with
                   the few [str] and [re] operations the scraper uses;
    - [Sanitize]   [sanitize_filename];
    - [Soup]       the part of a parsed BeautifulSoup document the scraper
                   queries (elements, attributes, text nodes, the CSS
                   selectors that occur in the source);
    - [Extract]    [extract_title], [extract_teaser_or_body], [parse_listing];
    - [Crawl]      [scrape_nature] as a state-passing program over an
                   explicit world (HTTP oracle, file system, metadata log,
                   event trace);
    - [Samples], [SampleRuns]  small documents and runs for the examples;
    - [Main]       [main] on a parsed command line, and further views of a
                   trace.

    The second half proves what holds of it: [StrFacts], [SanitizeFacts],
    [ExtractFacts], [CrawlFacts], then [SanitizeCover], [ExtractCover] and
    [CrawlCover] with further properties of the same functions. Line
    numbers refer to [scrape_nature.py]. *)

From stdpp Require Import base numbers list strings gmap sets.
From Stdlib Require Import ZArith QArith Lia DecimalString.
From Stdlib Require DecimalZ.

Set Warnings "-register-all".

Open Scope N_scope.

(** ** Python strings *)

(** A Python [str] is a sequence of Unicode code points. *)
Abbreviation str := (list N).

(** A literal of the source, as its code points (the literals of the source
    are ASCII). *)
Definition lit (s : string) : str :=
  map Ascii.N_of_ascii (String.list_ascii_of_string s).

Module Str.

(** [str.isspace] on one character; the same set is what [\s] matches in a
    [str] pattern and what [str.strip()] removes. *)
Definition isspace (c : N) : bool :=
  ((9 <=? c) && (c <=? 13)) || ((28 <=? c) && (c <=? 32))
  || (c =? 0x85) || (c =? 0xa0) || (c =? 0x1680)
  || ((0x2000 <=? c) && (c <=? 0x200a))
  || (c =? 0x2028) || (c =? 0x2029) || (c =? 0x202f)
  || (c =? 0x205f) || (c =? 0x3000).

(** [s.lstrip(chars)], [s.rstrip(chars)]: drop the characters of a class
    from the left, from the right. *)
Fixpoint lstrip (p : N → bool) (s : str) : str :=
  match s with
  | [] => []
  | c :: s' => if p c then lstrip p s' else s
  end.

Definition rstrip (p : N → bool) (s : str) : str :=
  reverse (lstrip p (reverse s)).

(** [s.strip()] *)
Definition strip (s : str) : str := rstrip isspace (lstrip isspace s).

(** [re.sub(r"\s+", " ", s)]: every maximal run of whitespace becomes one
    space. [in_run] tells that the previous character was whitespace. *)
Fixpoint sub_ws_runs (in_run : bool) (s : str) : str :=
  match s with
  | [] => []
  | c :: s' =>
      if isspace c
      then (if in_run then sub_ws_runs true s' else 32 :: sub_ws_runs true s')
      else c :: sub_ws_runs false s'
  end.

Definition collapse_ws (s : str) : str := sub_ws_runs false s.

(** [string.punctuation]: the 32 ASCII punctuation characters, code points
    33-47 (exclamation mark to slash, the hyphen 45 among them), 58-64 (colon
    to at sign), 91-96 (bracket to backquote, the underscore 95 among them)
    and 123-126 (brace to tilde). *)
Definition punctuation : str :=
  [33; 34; 35; 36; 37; 38; 39; 40; 41; 42; 43; 44; 45; 46; 47;
   58; 59; 60; 61; 62; 63; 64;
   91; 92; 93; 94; 95; 96;
   123; 124; 125; 126].

Definition mem (c : N) (cs : str) : bool := existsb (N.eqb c) cs.

(** [s.translate(str.maketrans("", "", dels))]: delete the characters of
    [dels]. *)
Definition translate_delete (dels : str) (s : str) : str :=
  List.filter (λ c, negb (mem c dels)) s.

(** [s.replace(old, new)] for one-character [old] and [new]. *)
Definition replace_char (old new : N) (s : str) : str :=
  map (λ c, if c =? old then new else c) s.

Definition is_upper (c : N) : bool := (65 <=? c) && (c <=? 90).
Definition is_lower (c : N) : bool := (97 <=? c) && (c <=? 122).
Definition is_digit (c : N) : bool := (48 <=? c) && (c <=? 57).
Definition is_alnum (c : N) : bool := is_upper c || is_lower c || is_digit c.

(** The class [[A-Za-z0-9_\-]]. *)
Definition is_safe (c : N) : bool := is_alnum c || (c =? 95) || (c =? 45).

(** The class [[A-Za-z0-9_]]. *)
Definition is_word (c : N) : bool := is_alnum c || (c =? 95).

(** [s.upper()] and [s.lower()] on the ASCII letters. The source calls
    [upper] only on strings already reduced to [[A-Za-z0-9_-]], and compares
    the result of [lower] only with the ASCII word "content", which no
    character outside ASCII lower-cases into; on those uses the functions
    below agree with Python's. *)
Definition upper_char (c : N) : N := if is_lower c then c - 32 else c.
Definition lower_char (c : N) : N := if is_upper c then c + 32 else c.
Definition upper (s : str) : str := map upper_char s.
Definition lower (s : str) : str := map lower_char s.

(** [s[:k]] with Python's reading of a negative bound. *)
Definition slice_to (k : Z) (s : str) : str :=
  if (0 <=? k)%Z then take (Z.to_nat k) s
  else take (length s - Z.to_nat (- k)) s.

(** [sep.join(parts)] *)
Fixpoint join (sep : str) (parts : list str) : str :=
  match parts with
  | [] => []
  | [p] => p
  | p :: ps => p ++ sep ++ join sep ps
  end.

Definition eqb (a b : str) : bool := bool_decide (a = b).

(** A string with no whitespace at its left end, at its right end, at
    either end: what [strip] leaves unchanged. *)
Definition starts_clean (s : str) : Prop := ∀ c, head s = Some c → isspace c = false.
Definition ends_clean (s : str) : Prop := ∀ c, last s = Some c → isspace c = false.
Definition trimmed (s : str) : Prop := starts_clean s ∧ ends_clean s.

End Str.

(** ** sanitize_filename *)

Module Sanitize.
Import Str.

Definition PUNCT_TABLE : str := punctuation.

Definition WINDOWS_RESERVED : list str :=
  map lit ["CON"; "PRN"; "AUX"; "NUL";
           "COM1"; "COM2"; "COM3"; "COM4"; "COM5"; "COM6"; "COM7"; "COM8"; "COM9";
           "LPT1"; "LPT2"; "LPT3"; "LPT4"; "LPT5"; "LPT6"; "LPT7"; "LPT8"; "LPT9"]%string.

Definition is_reserved (s : str) : bool :=
  bool_decide (s ∈ WINDOWS_RESERVED).

(** Lines 36-39: the title reduced to the characters that are kept. *)
Definition clean (title : str) : str :=
  let base := strip title in
  let base := collapse_ws base in
  let base := replace_char 32 95 (translate_delete PUNCT_TABLE base) in
  List.filter is_safe base.

(** Lines 40-44, on the cleaned base: the default name, the wrapping of a
    reserved device name, the cut at [max_len] and the removal of trailing
    underscores, in this order. *)
Definition finish (max_len : Z) (base : str) : str :=
  let base := if bool_decide (base = []) then lit "untitled" else base in
  let base := if is_reserved (upper base) then [95] ++ base ++ [95] else base in
  rstrip (N.eqb 95) (slice_to max_len base).

Definition sanitize_filename (title : str) (max_len : Z) : str :=
  finish max_len (clean title).

(** The default of the parameter [max_len]. *)
Definition default_max_len : Z := 120.

Definition not_underscore (c : N) : bool := negb (c =? 95).

(** The names a second pass of [sanitize_filename] leaves as they are:
    non-empty, and either free of underscores and not a reserved device
    name, or one underscore followed by a reserved device name; device names
    are read case-insensitively. *)
Definition stable_name (s : str) : bool :=
  negb (Str.eqb s [])
  && ((negb (mem 95 s) && negb (is_reserved (upper s)))
      || match s with
         | c :: r => (c =? 95) && is_reserved (upper r)
         | [] => false
         end).

End Sanitize.

(** ** The parsed document

    [BeautifulSoup(html, "html.parser")] is an external collaborator; the
    scraper only queries the tree it returns. An element carries its
    (lower-cased) name, its attributes and its children; a text node carries
    its string. Only the strings [get_text] reports are represented (no
    comments, no declarations). *)

Module Soup.
Import Str.

Inductive node : Type :=
| Text (s : str)
| Elem (name : string) (attrs : list (string * str)) (children : list node).

(** The [BeautifulSoup] object: the top-level nodes of the document. *)
Abbreviation soup := (list node).

Fixpoint assoc (k : string) (l : list (string * str)) : option str :=
  match l with
  | [] => None
  | (k', v) :: l' => if bool_decide (k' = k) then Some v else assoc k l'
  end.

(** [tag.get(attr)]: [None] when the attribute is missing (also on a text
    node, which has no attributes). *)
Definition tag_get (attr : string) (t : node) : option str :=
  match t with
  | Text _ => None
  | Elem _ attrs _ => assoc attr attrs
  end.

(** The text nodes below a node, in document order. *)
Fixpoint strings (n : node) : list str :=
  match n with
  | Text s => [s]
  | Elem _ _ children => flat_map strings children
  end.

(** [tag.get_text(sep, strip=...)]: with [strip=True] every text node is
    stripped and the empty ones are skipped before joining. *)
Definition get_text (sep : str) (strip_each : bool) (t : node) : str :=
  if strip_each
  then join sep (List.filter (λ s, negb (Str.eqb s [])) (map strip (strings t)))
  else join sep (strings t).

(** The whitespace-separated words of an attribute value (the value of
    [class] is a list of class names). *)
Fixpoint split_ws_go (cur : str) (s : str) : list str :=
  match s with
  | [] => match cur with [] => [] | _ => [reverse cur] end
  | c :: s' =>
      if isspace c
      then match cur with
           | [] => split_ws_go [] s'
           | _ => reverse cur :: split_ws_go [] s'
           end
      else split_ws_go (c :: cur) s'
  end.

Definition split_ws (s : str) : list str := split_ws_go [] s.

(** *** CSS selectors, as far as the source uses them

    A compound selector [tag#id.class[attr="value"]], a complex selector
    made of compounds separated by the descendant combinator, and a
    comma-separated group of complex selectors. *)

Record compound : Type := {
  c_tag : option string;
  c_id : option str;
  c_classes : list str;
  c_attrs : list (string * str)
}.

(** Outermost compound first, as written. *)
Abbreviation complex := (list compound).
Abbreviation selector := (list complex).

(** Name and attributes of an element. *)
Abbreviation elem_info := (string * list (string * str))%type.

Definition has_attr_value (attrs : list (string * str)) (kv : string * str) : bool :=
  bool_decide (assoc kv.1 attrs = Some kv.2).

Definition has_class (attrs : list (string * str)) (cls : str) : bool :=
  match assoc "class" attrs with
  | Some v => bool_decide (cls ∈ split_ws v)
  | None => false
  end.

Definition matches_compound (c : compound) (e : elem_info) : bool :=
  match c_tag c with Some t => bool_decide (e.1 = t) | None => true end
  && match c_id c with Some i => has_attr_value e.2 ("id"%string, i) | None => true end
  && forallb (has_class e.2) (c_classes c)
  && forallb (has_attr_value e.2) (c_attrs c).

(** The compounds [cs] (innermost first) are matched by ancestors [ancs]
    (nearest first), in order. *)
Fixpoint matches_up (cs : list compound) (ancs : list elem_info) : bool :=
  match cs with
  | [] => true
  | c :: cs' =>
      (fix go (ancs : list elem_info) : bool :=
         match ancs with
         | [] => false
         | a :: ancs' => if matches_compound c a then matches_up cs' ancs' else go ancs'
         end) ancs
  end.

Definition matches_complex (cx : complex) (e : elem_info) (ancs : list elem_info) : bool :=
  match reverse cx with
  | [] => false
  | c :: cs => matches_compound c e && matches_up cs ancs
  end.

Definition matches_selector (sel : selector) (e : elem_info) (ancs : list elem_info) : bool :=
  existsb (λ cx, matches_complex cx e ancs) sel.

(** The elements at or below [n] that match [sel], in document order;
    [ancs] are the ancestors of [n], nearest first. *)
Fixpoint select_node (sel : selector) (ancs : list elem_info) (n : node) : list node :=
  match n with
  | Text _ => []
  | Elem name attrs children =>
      (if matches_selector sel (name, attrs) ancs then [n] else [])
      ++ flat_map (select_node sel ((name, attrs) :: ancs)) children
  end.

(** [soup.select(sel)] and [soup.select_one(sel)] *)
Definition select (sel : selector) (doc : soup) : list node :=
  flat_map (select_node sel []) doc.

Definition select_one (sel : selector) (doc : soup) : option node :=
  head (select sel doc).

(** [tag.select(sel)]: the matching elements strictly below [tag]. The
    ancestors of [tag] itself are not recorded in a [node]; the source
    calls [tag.select] only with the one-compound selector [p], for which
    ancestors play no part. *)
Definition tag_select (sel : selector) (t : node) : list node :=
  match t with
  | Text _ => []
  | Elem name attrs children =>
      flat_map (select_node sel [(name, attrs)]) children
  end.

(** [find_all(name, attrs=...)] and [find(name, attrs=...)], on the
    document and below a tag. *)
Definition name_attrs (name : string) (attrs : list (string * str)) : selector :=
  [[ {| c_tag := Some name; c_id := None; c_classes := []; c_attrs := attrs |} ]].

Definition find_all (name : string) (attrs : list (string * str)) (doc : soup) : list node :=
  select (name_attrs name attrs) doc.

Definition find (name : string) (attrs : list (string * str)) (doc : soup) : option node :=
  head (find_all name attrs doc).

Definition tag_find (name : string) (attrs : list (string * str)) (t : node) : option node :=
  head (tag_select (name_attrs name attrs) t).

(** Writing the selectors of the source. *)
Definition tag_ (t : string) : compound :=
  {| c_tag := Some t; c_id := None; c_classes := []; c_attrs := [] |}.
Definition with_id (i : string) (c : compound) : compound :=
  {| c_tag := c_tag c; c_id := Some (lit i); c_classes := c_classes c; c_attrs := c_attrs c |}.
Definition with_class (cls : string) (c : compound) : compound :=
  {| c_tag := c_tag c; c_id := c_id c; c_classes := c_classes c ++ [lit cls]; c_attrs := c_attrs c |}.
Definition with_attr (k v : string) (c : compound) : compound :=
  {| c_tag := c_tag c; c_id := c_id c; c_classes := c_classes c; c_attrs := c_attrs c ++ [(k, lit v)] |}.

End Soup.

(** ** Field extraction and the listing parser *)

Module Extract.
Import Str Soup.

(** [x or ""] for an optional string. *)
Definition or_empty (o : option str) : str := default [] o.

(** *** extract_title *)

(** Lines 50-53: [meta[property="og:title"]], [meta[name="dc.title"]],
    [meta[name="citation_title"]], [meta[name="twitter:title"]], each read
    at its [content] attribute. *)
Definition title_meta_selectors : list (selector * string) :=
  [ ([[with_attr "property" "og:title" (tag_ "meta")]], "content");
    ([[with_attr "name" "dc.title" (tag_ "meta")]], "content");
    ([[with_attr "name" "citation_title" (tag_ "meta")]], "content");
    ([[with_attr "name" "twitter:title" (tag_ "meta")]], "content") ]%string.

(** Lines 64-67: [h1.c-article-title], [h1[data-test='article-title']],
    [header.c-article-header h1], [article h1]. *)
Definition title_h1_selectors : list selector :=
  [ [[with_class "c-article-title" (tag_ "h1")]];
    [[with_attr "data-test" "article-title" (tag_ "h1")]];
    [[with_class "c-article-header" (tag_ "header"); tag_ "h1"]];
    [[tag_ "article"; tag_ "h1"]] ]%string.

(** The first loop (lines 49-60): [Some val] when it returns. *)
Fixpoint title_from_meta (doc : soup) (sels : list (selector * string)) : option str :=
  match sels with
  | [] => None
  | (selector, attr) :: rest =>
      match select_one selector doc with
      | Some tag =>
          let val := strip (or_empty (tag_get attr tag)) in
          if negb (Str.eqb val []) && negb (Str.eqb (lower val) (lit "content"))
          then Some val
          else title_from_meta doc rest
      | None => title_from_meta doc rest
      end
  end.

(** The second loop (lines 63-73). *)
Fixpoint title_from_h1 (doc : soup) (sels : list selector) : option str :=
  match sels with
  | [] => None
  | sel :: rest =>
      match select_one sel doc with
      | Some h1 =>
          let txt := get_text (lit " ") true h1 in
          if negb (Str.eqb txt []) then Some txt else title_from_h1 doc rest
      | None => title_from_h1 doc rest
      end
  end.

(** [s] starts with [pre]: what follows it. *)
Fixpoint strip_prefix (pre s : str) : option str :=
  match pre, s with
  | [], _ => Some s
  | a :: pre', b :: s' => if a =? b then strip_prefix pre' s' else None
  | _ :: _, [] => None
  end.

(** The pattern [\s*\|\s*Nature.*$] matched at the start of [s]: [Some
    rest] gives what is left of [s] after the match. Both [\s*] take the
    whole run of whitespace (what follows them is not whitespace); [.*]
    runs to the first newline or to the end; [$] holds at the end of the
    string and before a newline that ends the string, so the match
    succeeds when no newline follows, or only a closing one (which is
    left). *)
Definition match_nature_suffix (s : str) : option str :=
  match lstrip isspace s with
  | 124 :: s1 =>
      match strip_prefix (lit "Nature") (lstrip isspace s1) with
      | Some after =>
          match lstrip (λ c, negb (c =? 10)) after with
          | [] => Some []
          | [nl] => Some [nl]
          | _ => None
          end
      | None => None
      end
  | _ => None
  end.

(** [re.sub(r"\s*\|\s*Nature.*$", "", s)]: the leftmost match is removed;
    what is left after it (nothing, or one newline) holds no further
    match. *)
Fixpoint sub_nature_suffix (s : str) : str :=
  match match_nature_suffix s with
  | Some rest => rest
  | None =>
      match s with
      | [] => []
      | c :: s' => c :: sub_nature_suffix s'
      end
  end.

Definition extract_title (doc : soup) : str :=
  match title_from_meta doc title_meta_selectors with
  | Some val => val
  | None =>
      match title_from_h1 doc title_h1_selectors with
      | Some txt => txt
      | None =>
          let t := find "title" [] doc in
          let txt := match t with
                     | Some t => get_text [] true t
                     | None => lit "No Title"
                     end in
          sub_nature_suffix txt
      end
  end.

(** *** extract_teaser_or_body *)

(** Lines 84-85: [meta[property='og:description']] and
    [meta[name='description']]. *)
Definition teaser_meta_selectors : list (selector * string) :=
  [ ([[with_attr "property" "og:description" (tag_ "meta")]], "content");
    ([[with_attr "name" "description" (tag_ "meta")]], "content") ]%string.

(** Line 95: the group [p.article__teaser, div.c-article-teaser p]. *)
Definition teaser_visible_selector : selector :=
  [ [with_class "article__teaser" (tag_ "p")];
    [with_class "c-article-teaser" (tag_ "div"); tag_ "p"] ]%string.

(** Lines 102-105: [div#content div.c-article-body], [div.c-article-body],
    [div[data-component='article-body']], [article div.article-item__body]. *)
Definition body_selectors : list selector :=
  [ [[with_id "content" (tag_ "div"); with_class "c-article-body" (tag_ "div")]];
    [[with_class "c-article-body" (tag_ "div")]];
    [[with_attr "data-component" "article-body" (tag_ "div")]];
    [[tag_ "article"; with_class "article-item__body" (tag_ "div")]] ]%string.

(** The loop of lines 83-91, started with the current value of [teaser]. *)
Fixpoint teaser_from_meta (doc : soup) (sels : list (selector * string)) (teaser : str) : str :=
  match sels with
  | [] => teaser
  | (selector, attr) :: rest =>
      match select_one selector doc with
      | Some tag =>
          if negb (Str.eqb (or_empty (tag_get attr tag)) [])
          then
            let teaser := strip (or_empty (tag_get attr tag)) in
            if negb (Str.eqb teaser []) then teaser
            else teaser_from_meta doc rest teaser
          else teaser_from_meta doc rest teaser
      | None => teaser_from_meta doc rest teaser
      end
  end.

(** Lines 82-97. *)
Definition find_teaser (doc : soup) : str :=
  let teaser := teaser_from_meta doc teaser_meta_selectors [] in
  if Str.eqb teaser []
  then match select_one teaser_visible_selector doc with
       | Some teaser_tag => get_text [] true teaser_tag
       | None => teaser
       end
  else teaser.

(** Lines 109-110: the non-empty paragraph texts of a container. *)
Definition paragraphs (body : node) : list str :=
  List.filter (λ p, negb (Str.eqb p []))
    (map (get_text (lit " ") true) (tag_select [[tag_ "p"]] body)).

(** The loop of lines 101-112, started with the current [body_parts]. *)
Fixpoint body_from (doc : soup) (sels : list selector) (body_parts : list str) : list str :=
  match sels with
  | [] => body_parts
  | sel :: rest =>
      match select_one sel doc with
      | Some body =>
          let body_parts := paragraphs body in
          match body_parts with
          | [] => body_from doc rest body_parts
          | _ => body_parts
          end
      | None => body_from doc rest body_parts
      end
  end.

Definition NO_CONTENT : str := lit "No content available.".

(** The separator of line 114: two newlines. *)
Definition BLANK_LINE : str := [10; 10].

(** Lines 114-118. *)
Definition final_text (body_parts : list str) (teaser : str) : str :=
  let text := strip (join BLANK_LINE body_parts) in
  let text := if Str.eqb text [] then strip teaser else text in
  if Str.eqb text [] then NO_CONTENT else text.

(** Lines 120-126: the metadata mapping. A tag is always true as a
    condition, so [a or b] on two lookups is the first tag found; the
    publication date is stored when its [content] is present and not empty,
    the type as soon as a type element is found. *)
Definition extract_meta (doc : soup) : gmap string str :=
  let meta : gmap string str := ∅ in
  let pub :=
    match select_one [[with_attr "name" "dc.date" (tag_ "meta")]] doc with
    | Some t => Some t
    | None => select_one [[with_attr "itemprop" "datePublished" (tag_ "meta")]] doc
    end in
  let meta :=
    match pub with
    | Some pub =>
        match tag_get "content" pub with
        | Some v => if negb (Str.eqb v []) then <["published"%string := v]> meta else meta
        | None => meta
        end
    | None => meta
    end in
  let t :=
    match select_one [[with_attr "name" "dc.type" (tag_ "meta")]] doc with
    | Some t => Some t
    | None => select_one [[with_attr "data-test" "article.type" (tag_ "span")]] doc
    end in
  match t with
  | Some t => <["type"%string := default (get_text [] true t) (tag_get "content" t)]> meta
  | None => meta
  end.

Definition extract_teaser_or_body (doc : soup) : str * gmap string str :=
  let teaser := find_teaser doc in
  let body_parts := body_from doc body_selectors [] in
  (final_text body_parts teaser, extract_meta doc).

(** The final text in the words of the specification, written without the
    loops of the code and with the selectors spelled out: the non-empty
    paragraph texts of the first body container that has any, joined by a
    blank line; else the teaser; else the sentinel. The containers are the
    elements the four body selectors find, in the order of the selectors. *)
Definition body_containers (doc : soup) : list node :=
  omap (λ sel, select_one sel doc)
    [ [[with_id "content" (tag_ "div"); with_class "c-article-body" (tag_ "div")]];
      [[with_class "c-article-body" (tag_ "div")]];
      [[with_attr "data-component" "article-body" (tag_ "div")]];
      [[tag_ "article"; with_class "article-item__body" (tag_ "div")]] ]%string.

Definition first_body_paragraphs (doc : soup) : list str :=
  match List.find (λ body, negb (bool_decide (paragraphs body = []))) (body_containers doc) with
  | Some body => paragraphs body
  | None => []
  end.

(** The description a meta tag carries: the stripped [content] of the first
    [meta] element whose attribute [key] is [value]; empty without such an
    element or without the attribute. *)
Definition description (key value : string) (doc : soup) : str :=
  match select_one [[with_attr key value (tag_ "meta")]] doc with
  | Some tag => strip (default [] (tag_get "content" tag))
  | None => []
  end.

(** The teaser in the words of the specification: of the two meta
    descriptions, og:description first, the first that is not empty; without
    one, the text of the visible teaser element (the first, in document
    order, that is a [p.article__teaser] or a [p] below a
    [div.c-article-teaser]); without that, nothing. *)
Definition expected_teaser (doc : soup) : str :=
  match List.find (λ d, negb (bool_decide (d = [])))
          [ description "property" "og:description" doc;
            description "name" "description" doc ] with
  | Some d => d
  | None =>
      match select_one [ [with_class "article__teaser" (tag_ "p")];
                         [with_class "c-article-teaser" (tag_ "div"); tag_ "p"] ] doc with
      | Some teaser_tag => get_text [] true teaser_tag
      | None => []
      end
  end.

Definition expected_text (doc : soup) : str :=
  match first_body_paragraphs doc with
  | _ :: _ => join BLANK_LINE (first_body_paragraphs doc)
  | [] => if bool_decide (expected_teaser doc = []) then NO_CONTENT else expected_teaser doc
  end.

(** *** parse_listing *)

Record item : Type := { it_url : str; it_type : option str }.

Definition BASE_URL : str := lit "https://www.nature.com".

Section Listing.

(** [urllib.parse.urljoin], an external collaborator. *)
Variable urljoin : str → str → str.

(** One iteration of the loop of lines 132-139: the item an [article]
    element contributes, if any. *)
Definition listing_item (art : node) : option item :=
  let type_tag := tag_find "span" [("data-test"%string, lit "article.type")] art in
  let link_tag := tag_find "a" [("data-track-action"%string, lit "view article")] art in
  match link_tag with
  | None => None
  | Some link_tag =>
      match tag_get "href" link_tag with
      | None => None
      | Some href =>
          if Str.eqb href [] then None
          else
            let url := urljoin BASE_URL href in
            let art_type := match type_tag with
                            | Some type_tag => Some (get_text [] true type_tag)
                            | None => None
                            end in
            Some {| it_url := url; it_type := art_type |}
      end
  end.

Definition parse_listing (html : soup) : list item :=
  omap listing_item (find_all "article" [] html).

End Listing.

End Extract.

(** ** Sample documents

    Small parsed documents used in the examples below; each is given with
    the markup it stands for. *)

Module Samples.
Import Str Soup Extract.

Definition p_ (s : string) : node := Elem "p" [] [Text (lit s)].

Definition meta_ (key value content : string) : node :=
  Elem "meta" [(key, lit value); ("content"%string, lit content)] [].

Definition page (head_nodes body_nodes : list node) : soup :=
  [Elem "html" [] [Elem "head" [] head_nodes; Elem "body" [] body_nodes]].

(** [<div class="c-article-body"><p>A.</p><p>B.</p><p>C.</p></div>], no
    description, no teaser element. *)
Definition doc_abc : soup :=
  page [] [Elem "div" [("class"%string, lit "c-article-body")]
             [p_ "A."; p_ "B."; p_ "C."]].

(** Neither a body container nor a teaser. *)
Definition doc_bare : soup := page [] [].

(** An empty container first in selector order, a filled one later:
    [<div data-component="article-body"><p>Late.</p></div>] followed by
    [<div id="content"><div class="c-article-body"><p> </p></div></div>]. *)
Definition doc_two_containers : soup :=
  page [meta_ "name" "description" "Teaser."]
       [Elem "div" [("data-component"%string, lit "article-body")] [p_ "Late."];
        Elem "div" [("id"%string, lit "content")]
          [Elem "div" [("class"%string, lit "c-article-body")] [p_ " "]]].

(** [<meta name="description" content="  A summary.  ">] and no body. *)
Definition doc_description_only : soup :=
  page [meta_ "name" "description" "  A summary.  "] [].

(** A blank og:description, then a description. *)
Definition doc_og_blank : soup :=
  page [meta_ "property" "og:description" "   ";
        meta_ "name" "description" "Second."] [].

(** Both descriptions, the plain one first in the document. *)
Definition doc_both_descriptions : soup :=
  page [meta_ "name" "description" "Plain.";
        meta_ "property" "og:description" "Graph."] [].

(** No description, [<p class="article__teaser"> Seen. </p>]. *)
Definition doc_visible_teaser : soup :=
  page [] [Elem "p" [("class"%string, lit "article__teaser")] [Text (lit " Seen. ")]].

(** No description, [<div class="c-article-teaser"><p>Below.</p></div>]. *)
Definition doc_nested_teaser : soup :=
  page [] [Elem "div" [("class"%string, lit "c-article-teaser")] [p_ "Below."]].

(** A description and a visible teaser element. *)
Definition doc_description_and_teaser : soup :=
  page [meta_ "property" "og:description" "Graph."]
       [Elem "p" [("class"%string, lit "article__teaser")] [Text (lit "Seen.")]].

(** A description and a body container whose only paragraph is blank. *)
Definition doc_blank_body : soup :=
  page [meta_ "name" "description" "Teaser."]
       [Elem "div" [("class"%string, lit "c-article-body")] [p_ " "]].

(** A body in the older layout:
    [<article><div class="article-item__body"><p>Old.</p></div></article>]. *)
Definition doc_old_layout : soup :=
  page [meta_ "name" "description" "Teaser."]
       [Elem "article" []
          [Elem "div" [("class"%string, lit "article-item__body")] [p_ "Old."]]].

(** [<meta name="citation_title" content="Foo Bar">] only. *)
Definition doc_citation_title : soup :=
  page [meta_ "name" "citation_title" "Foo Bar"] [].

(** [<meta property="og:title" content="content">] and
    [<title>Real title | Nature</title>]. *)
Definition doc_content_leak : soup :=
  page [meta_ "property" "og:title" "content";
        Elem "title" [] [Text (lit "Real title | Nature")]] [].

(** [<title> | Nature</title>]: a title element that holds only the
    publisher suffix. *)
Definition doc_title_suffix_only : soup :=
  page [Elem "title" [] [Text (lit " | Nature")]] [].

(** [<title></title>] *)
Definition doc_title_empty : soup := page [Elem "title" [] []] [].

(** [<meta name="dc.type" content="">] *)
Definition doc_type_empty : soup := page [meta_ "name" "dc.type" ""] [].

(** [<meta name="dc.date" content="">] and
    [<span data-test="article.type">News</span>]. *)
Definition doc_date_empty : soup :=
  page [meta_ "name" "dc.date" ""]
       [Elem "span" [("data-test"%string, lit "article.type")] [Text (lit "News")]].

(** An article summary of a listing page:
    [<article><span data-test="article.type">TYPE</span>
     <a href="HREF" data-track-action="view article">..</a></article>];
    without the span when there is no type. *)
Definition summary (href : string) (type : option string) : node :=
  Elem "article" []
    (match type with
     | Some ty => [Elem "span" [("data-test"%string, lit "article.type")] [Text (lit ty)]]
     | None => []
     end
     ++ [Elem "a" [("href"%string, lit href);
                   ("data-track-action"%string, lit "view article")]
           [Text (lit "read")]]).

(** A listing with one item of type News, one of type Comment (with
    whitespace around the label, as markup has it) and one without type. *)
Definition listing_three : soup :=
  page [] [summary "/articles/n1" (Some " News ");
           summary "/articles/c1" (Some "Comment");
           summary "/articles/x1" None].

(** [urljoin] on the site's base and a path that starts with a slash. *)
Definition join_path (base href : str) : str := base ++ href.

End Samples.

(** ** The crawl loop

    [scrape_nature] talks to the network, the file system and the console.
    The world is made explicit: the HTTP session is an oracle that answers
    the n-th request of the run, the files below [outdir] are a map from
    relative path to content, the lines appended to [metadata.jsonl] are a
    list of records, and requests, sleeps and console lines are recorded in
    a trace, oldest first. Directories and file-system errors are not
    represented.

    Two limits of this world. The file [metadata.jsonl], which line 147
    opens (and creates) and line 211 appends to, is not an entry of the
    map of files: it is the list of records, and the map speaks of every
    other path below [outdir]. And the runs described are those that reach
    line 220: a request is answered with some status or raises
    [requests.RequestException], which lines 162 and 188 catch; an
    exception of another kind, raised by the parser, by [urljoin] or by
    the file system, would end the run where it is raised, and such runs
    are not described. *)

Module Crawl.
Import Str Soup Extract Sanitize.

(** The outcome of [session.get]: a [requests.RequestException], or a
    response with its status code and its (parsed) content. *)
Inductive response : Type :=
| RequestException
| Response (status_code : Z) (content : soup).

(** The lines printed, by kind, with the values they show. *)
Inductive message : Type :=
| WarnListing (page_num status : Z)
| ErrorListing (page_num : Z)
| InfoNoMatches (page_num : Z)
| WarnArticle (status : Z) (url : str)
| ErrorArticle (url : str)
| DebugTitle (title fname : str)
| DebugLength (n : nat) (url : str)
| OkPage (page_num : Z) (n_matched : nat)
| Done (n_saved : Z).

Inductive event : Type :=
| Get (url : str) (timeout : Z) (resp : response)
| Sleep (seconds : Q)
| Print (m : message).

(** One line of [metadata.jsonl]: the keys of [rec]. *)
Record article_record : Type := {
  r_title : str;
  r_url : str;
  r_file : str;
  r_page : Z;
  r_published : option str;
  r_type : option str;
  r_listed_type : option str
}.

Record state : Type := {
  seen : gset str;
  saved : Z;
  files : gmap str str;
  meta_f : list article_record;
  trace : list event
}.

Definition emit (e : event) (st : state) : state :=
  {| seen := seen st; saved := saved st; files := files st;
     meta_f := meta_f st; trace := trace st ++ [e] |}.

Definition seen_add (url : str) (st : state) : state :=
  {| seen := {[url]} ∪ seen st; saved := saved st; files := files st;
     meta_f := meta_f st; trace := trace st |}.

(** Lines 205-213: write the file, append the record, count it. *)
Definition save (filepath text : str) (rec : article_record) (st : state) : state :=
  {| seen := seen st; saved := (saved st + 1)%Z;
     files := <[filepath := text]> (files st);
     meta_f := meta_f st ++ [rec]; trace := trace st |}.

Definition is_get (e : event) : bool :=
  match e with Get _ _ _ => true | _ => false end.

(** How many requests the run has issued so far. *)
Definition requests (st : state) : nat := length (List.filter is_get (trace st)).

(** [str(n)] for an integer. *)
Definition dec (n : Z) : str := lit (NilZero.string_of_int (Z.to_int n)).

(** [hex(n)[2:]] for [n >= 0]: lower-case digits, no leading zero, "0"
    for zero. *)
Definition hex_digit (d : N) : N := if d <? 10 then 48 + d else 87 + d.

Fixpoint hex_go (fuel : nat) (n : N) (acc : str) : str :=
  match fuel with
  | O => hex_digit n :: acc
  | S fuel' =>
      if n <? 16 then hex_digit n :: acc
      else hex_go fuel' (n / 16) (hex_digit (n mod 16) :: acc)
  end.

Definition hex (n : N) : str := hex_go (N.to_nat (N.log2 n)) n [].

(** The number a string of hexadecimal digits denotes. *)
Definition is_hex_digit (c : N) : bool := is_digit c || ((97 <=? c) && (c <=? 102)).
Definition hex_digit_value (c : N) : N := if is_digit c then c - 48 else c - 87.
Definition hex_value_from (v : N) (s : str) : N :=
  foldl (λ v c, 16 * v + hex_digit_value c) v s.
Definition hex_value (s : str) : N := hex_value_from 0 s.

(** The unpadded hexadecimal numeral of [n], in words: a non-empty string
    of the digits 0-9 and a-f that denotes [n] and starts with the digit 0
    only when it is that digit alone. *)
Definition unpadded_hex (s : str) (n : N) : Prop :=
  s ≠ []
  ∧ Forall (λ c, is_hex_digit c = true) s
  ∧ (head s = Some 48 → s = [48])
  ∧ hex_value s = n.

(** The name of the records file of line 147, relative to [outdir]. *)
Definition METADATA_FILE : str := lit "metadata.jsonl".

(** [f"Page_{page_num}"], relative to [outdir]. *)
Definition page_dir (page_num : Z) : str := lit "Page_" ++ dec page_num.

(** Line 192. *)
Definition base_name (title : str) : str :=
  let fname := sanitize_filename title default_max_len in
  if Str.eqb fname [] then lit "article" else fname.

(** Line 166: whether a listing item is kept. *)
Definition type_matches (article_type : str) (it : item) : bool :=
  Str.eqb article_type [] || Str.eqb (strip (or_empty (it_type it))) article_type.

(** Line 166: the items of a listing that are kept. *)
Definition matched (article_type : str) (listing : list item) : list item :=
  List.filter (type_matches article_type) listing.

(** The URLs requested as articles (line 181 passes the timeout 20, line
    157 the timeout 15), oldest first. *)
Definition article_gets (tr : list event) : list str :=
  omap (λ e, match e with
             | Get url timeout _ => if (timeout =? 20)%Z then Some url else None
             | _ => None
             end) tr.

(** Whether every request of a trace, the first apart, comes after a sleep
    that follows the request before it; [slept] tells whether there was a
    sleep since the last request. *)
Fixpoint delays_observed (slept : bool) (tr : list event) : bool :=
  match tr with
  | [] => true
  | Get _ _ _ :: tr' => slept && delays_observed false tr'
  | Sleep _ :: tr' => delays_observed true tr'
  | Print _ :: tr' => delays_observed slept tr'
  end.

(** The events an article contributes: no request with the timeout of a
    listing. *)
Definition from_item (e : event) : Prop :=
  match e with
  | Get _ timeout _ => timeout = 20%Z
  | _ => True
  end.

(** Requests and sleeps of a trace, without the responses and the console
    lines. *)
Inductive step : Type :=
| Request (url : str)
| Pause.

Definition steps (tr : list event) : list step :=
  omap (λ e, match e with
             | Get url _ _ => Some (Request url)
             | Sleep _ => Some Pause
             | Print _ => None
             end) tr.

Section Run.

(** External collaborators: [urljoin], the built-in [hash] of this process
    on strings, and the HTTP session: [session_get n url timeout] is the
    outcome of the request when [n] requests were issued before it. *)
Variable urljoin : str → str → str.
Variable hash : str → Z.
Variable session_get : nat → str → Z → response.

(** The arguments of [scrape_nature], and the files found below [outdir]
    when the run starts. *)
Variable pages : Z.
Variable article_type : str.
Variable year : option Z.
Variable delay : Q.
Variable files0 : gmap str str.

(** Lines 151-154. *)
Definition listing_url (page_num : Z) : str :=
  let url := BASE_URL ++ lit "/nature/articles?sort=PubDate" in
  let url := match year with
             | Some y => if (y =? 0)%Z then url else url ++ lit "&year=" ++ dec y
             | None => url
             end in
  url ++ lit "&page=" ++ dec page_num.

(** Line 200. *)
Definition collision_suffix (url : str) : str :=
  hex (Z.to_N (Z.abs (hash url) mod 16 ^ 6)).

(** Lines 196-201: the path written, relative to [outdir]. *)
Definition target_path (page_num : Z) (fname url : str) (st : state) : str :=
  let filepath := page_dir page_num ++ lit "/" ++ fname ++ lit ".txt" in
  if bool_decide (is_Some (files st !! filepath))
  then page_dir page_num ++ lit "/" ++ fname ++ lit "_" ++ collision_suffix url ++ lit ".txt"
  else filepath.

(** Lines 186-214: a fetched article is extracted and saved. *)
Definition save_article (page_num : Z) (it : item) (content : soup) (st : state) : state :=
  let url := it_url it in
  let title := extract_title content in
  let '(text, meta) := extract_teaser_or_body content in
  let fname := base_name title in
  let st := emit (Print (DebugTitle title fname)) st in
  let st := emit (Print (DebugLength (length text) url)) st in
  let filepath := target_path page_num fname url st in
  let text := if Str.eqb (strip text) [] then NO_CONTENT else text in
  let rec := {| r_title := title; r_url := url; r_file := filepath;
                r_page := page_num;
                r_published := meta !! "published"%string;
                r_type := meta !! "type"%string;
                r_listed_type := it_type it |} in
  let st := save filepath text rec st in
  emit (Sleep delay) st.

(** The body of the loop of lines 174-214. *)
Definition process_item (page_num : Z) (st : state) (it : item) : state :=
  let url := it_url it in
  if bool_decide (url ∈ seen st) then st
  else
    let st := seen_add url st in
    let aresp := session_get (requests st) url 20 in
    let st := emit (Get url 20 aresp) st in
    match aresp with
    | RequestException => emit (Print (ErrorArticle url)) st
    | Response status_code content =>
        if negb (status_code =? 200)%Z
        then emit (Print (WarnArticle status_code url)) st
        else save_article page_num it content st
    end.

(** The body of the loop of lines 149-216. *)
Definition process_page (st : state) (page_num : Z) : state :=
  let url := listing_url page_num in
  let resp := session_get (requests st) url 15 in
  let st := emit (Get url 15 resp) st in
  match resp with
  | RequestException => emit (Print (ErrorListing page_num)) st
  | Response status_code content =>
      if negb (status_code =? 200)%Z
      then emit (Print (WarnListing page_num status_code)) st
      else
        let listing := parse_listing urljoin content in
        let matched := matched article_type listing in
        match matched with
        | [] => emit (Sleep delay) (emit (Print (InfoNoMatches page_num)) st)
        | _ =>
            let st := foldl (process_item page_num) st matched in
            emit (Print (OkPage page_num (length matched))) st
        end
  end.

(** [range(1, pages + 1)] *)
Definition page_range : list Z := map Z.of_nat (seq 1 (Z.to_nat pages)).

Definition initial : state :=
  {| seen := ∅; saved := 0; files := files0; meta_f := []; trace := [] |}.

(** The run of [scrape_nature], as the world it leaves. *)
Definition crawl : state :=
  let st := foldl process_page initial page_range in
  emit (Print (Done (saved st))) st.

(** The value [scrape_nature] returns. *)
Definition scrape_nature : Z := saved crawl.

(** *** What holds of the world during a run *)

(** A record names its file after the base name of its title, with or
    without the collision suffix of its URL. *)
Definition well_named (r : article_record) : Prop :=
  let base := base_name (r_title r) in
  let stem := page_dir (r_page r) ++ lit "/" ++ base in
  base ≠ []
  ∧ (r_file r = stem ++ lit ".txt"
     ∨ r_file r = stem ++ lit "_" ++ collision_suffix (r_url r) ++ lit ".txt").

(** Between two articles: the seen set is the set of URLs requested as
    articles, none of them twice; the records are those of the requests
    answered with status 200, one each; every record names an existing
    file. *)
Record item_invariant (st : state) : Prop := {
  inv_gets : NoDup (article_gets (trace st));
  inv_seen : ∀ url, url ∈ seen st ↔ url ∈ article_gets (trace st);
  inv_urls : NoDup (map r_url (meta_f st));
  inv_records : ∀ url, url ∈ map r_url (meta_f st)
                  ↔ ∃ content, Get url 20 (Response 200 content) ∈ trace st;
  inv_saved : saved st = Z.of_nat (length (meta_f st));
  inv_named : Forall well_named (meta_f st);
  inv_files : Forall (λ r, is_Some (files st !! r_file r)) (meta_f st)
}.

(** Between two pages: besides, every item kept from a listing that was
    received has been seen. *)
Definition listed_seen (st : state) : Prop :=
  ∀ lurl content it,
    Get lurl 15 (Response 200 content) ∈ trace st →
    it ∈ matched article_type (parse_listing urljoin content) →
    it_url it ∈ seen st.

End Run.

End Crawl.

(** ** Sample runs *)

Module SampleRuns.
Import Str Soup Extract Samples Crawl.

(** An article page whose only title source is
    [<meta name="citation_title" content="TITLE">]. *)
Definition article_page (title : string) : soup :=
  page [meta_ "name" "citation_title" title] [].

(** A process in which every string hashes to 26. *)
Definition hash26 (url : str) : Z := 26.

(** A site: every listing page is [listing], every article is [article]. *)
Definition site (listing article : soup) (n : nat) (url : str) (timeout : Z) : response :=
  if (timeout =? 15)%Z then Response 200 listing else Response 200 article.

(** The same article summary on every listing page. *)
Definition listing_one : soup := page [] [summary "/articles/n1" (Some "News")].

(** Two summaries on a page. *)
Definition listing_two : soup :=
  page [] [summary "/articles/a1" (Some "News"); summary "/articles/a2" (Some "News")].

(** Two pages that both list the article n1. *)
Definition run_same_url : state :=
  crawl join_path hash26 (site listing_one (article_page "Foo Bar")) 2 [] None (8 # 10) ∅.

(** One page that lists one article. *)
Definition run_one_article : state :=
  crawl join_path hash26 (site listing_one (article_page "Foo Bar")) 1 [] None (8 # 10) ∅.

(** One page with two articles of the same title. *)
Definition run_same_title : state :=
  crawl join_path hash26 (site listing_two (article_page "Foo Bar")) 1 [] None (8 # 10) ∅.

(** One page with three summaries, filtered by the type News. *)
Definition run_news_only : state :=
  crawl join_path hash26 (site listing_three (article_page "Foo Bar")) 1 (lit "News") None (8 # 10) ∅.

(** One page with one article whose title is cleaned to nothing. *)
Definition run_untitled : state :=
  crawl join_path hash26 (site listing_one (article_page "! !")) 1 [] None (8 # 10) ∅.

End SampleRuns.

(** ** main, and further views of a run *)

Module Main.
Import Str Soup Extract Crawl.

(** The parsed command line: [--pages], [--type], [--year], [--delay].
    The parsing itself and the output directory [--out] are not
    represented (paths are relative to the output directory). *)
Record args : Type := {
  a_pages : Z;
  a_type : str;
  a_year : option Z;
  a_delay : Q
}.

Section Main.

Variable urljoin : str → str → str.
Variable hash : str → Z.
Variable session_get : nat → str → Z → response.
Variable files0 : gmap str str.

(** Line 232: the type filter is stripped before the run. *)
Definition main (a : args) : state :=
  crawl urljoin hash session_get (a_pages a) (strip (a_type a)) (a_year a)
    (a_delay a) files0.

End Main.

(** The URLs requested as listing pages (timeout 15), oldest first. *)
Definition listing_gets (tr : list event) : list str :=
  omap (λ e, match e with
             | Get url timeout _ => if (timeout =? 15)%Z then Some url else None
             | _ => None
             end) tr.

(** The arguments of the calls of [time.sleep], oldest first. *)
Definition sleeps (tr : list event) : list Q :=
  omap (λ e, match e with Sleep d => Some d | _ => None end) tr.

(** How many pages were reported as having no matches (line 168). *)
Definition no_match_notices (tr : list event) : nat :=
  length (List.filter (λ e, match e with
                            | Print (InfoNoMatches _) => true
                            | _ => false
                            end) tr).

(** The record of lines 208-210 for an article saved under [filepath]. *)
Definition record_of (page_num : Z) (it : item) (content : soup) (filepath : str)
  : article_record :=
  {| r_title := extract_title content;
     r_url := it_url it;
     r_file := filepath;
     r_page := page_num;
     r_published := (extract_teaser_or_body content).2 !! "published"%string;
     r_type := (extract_teaser_or_body content).2 !! "type"%string;
     r_listed_type := it_type it |}.

End Main.

(** * Properties *)

(** ** Facts about the string operations *)

Module StrFacts.
Import Str.

Lemma isspace_spec c :
  isspace c = true ↔
  (9 ≤ c ≤ 13 ∨ 28 ≤ c ≤ 32 ∨ c = 0x85 ∨ c = 0xa0 ∨ c = 0x1680
   ∨ 0x2000 ≤ c ≤ 0x200a ∨ c = 0x2028 ∨ c = 0x2029 ∨ c = 0x202f
   ∨ c = 0x205f ∨ c = 0x3000).
Proof.
  unfold isspace.
  rewrite !orb_true_iff, !andb_true_iff, !N.leb_le, !N.eqb_eq. tauto.
Qed.

Lemma is_alnum_spec c :
  is_alnum c = true ↔ (65 ≤ c ≤ 90 ∨ 97 ≤ c ≤ 122 ∨ 48 ≤ c ≤ 57).
Proof.
  unfold is_alnum, is_upper, is_lower, is_digit.
  rewrite !orb_true_iff, !andb_true_iff, !N.leb_le. tauto.
Qed.

Lemma mem_spec c cs : mem c cs = true ↔ c ∈ cs.
Proof.
  unfold mem. rewrite existsb_exists. split.
  - intros (x & Hx & ->%N.eqb_eq). by apply list_elem_of_In.
  - intros H. exists c. split; [by apply list_elem_of_In | apply N.eqb_refl].
Qed.

Lemma mem_punctuation_spec c :
  mem c punctuation = true ↔
  (33 ≤ c ≤ 47 ∨ 58 ≤ c ≤ 64 ∨ 91 ≤ c ≤ 96 ∨ 123 ≤ c ≤ 126).
Proof.
  unfold mem, punctuation. cbn [existsb].
  rewrite !orb_true_iff, !N.eqb_eq. lia.
Qed.

Lemma alnum_not_space c : is_alnum c = true → isspace c = false.
Proof.
  intros H%is_alnum_spec. destruct (isspace c) eqn:E; [|done].
  apply isspace_spec in E. lia.
Qed.

Lemma alnum_not_punct c : is_alnum c = true → mem c punctuation = false.
Proof.
  intros H%is_alnum_spec. destruct (mem c punctuation) eqn:E; [|done].
  apply mem_punctuation_spec in E. lia.
Qed.

(** *** lstrip and rstrip *)

Lemma lstrip_head_false p c s : p c = false → lstrip p (c :: s) = c :: s.
Proof. intros H. simpl. by rewrite H. Qed.

Lemma lstrip_app_false p s c :
  p c = false → lstrip p (s ++ [c]) = lstrip p s ++ [c].
Proof.
  intros Hc. induction s as [|a s IH]; simpl.
  - by rewrite Hc.
  - destruct (p a); [done | done].
Qed.

Lemma lstrip_all p s : Forall (λ c, p c = true) s → lstrip p s = [].
Proof. induction 1 as [|c s Hc _ IH]; simpl; [done | by rewrite Hc]. Qed.

Lemma lstrip_nil_all p s : lstrip p s = [] → Forall (λ c, p c = true) s.
Proof.
  induction s as [|c s IH]; simpl; [constructor|].
  destruct (p c) eqn:E; [|done]. intros H. constructor; auto.
Qed.

Lemma lstrip_suffix p s : lstrip p s `suffix_of` s.
Proof.
  induction s as [|c s IH]; simpl; [done|].
  destruct (p c); [by apply suffix_cons_r | done].
Qed.

Lemma lstrip_head p s c s' : lstrip p s = c :: s' → p c = false.
Proof.
  induction s as [|a s IH]; simpl; [done|].
  destruct (p a) eqn:E; [done | by intros [= <- _]].
Qed.

Lemma rstrip_nil p : rstrip p [] = [].
Proof. done. Qed.

Lemma rstrip_snoc_true p s c : p c = true → rstrip p (s ++ [c]) = rstrip p s.
Proof.
  intros Hc. unfold rstrip. rewrite reverse_app. simpl. by rewrite Hc.
Qed.

Lemma rstrip_snoc_false p s c : p c = false → rstrip p (s ++ [c]) = s ++ [c].
Proof.
  intros Hc. unfold rstrip. rewrite reverse_app. simpl. rewrite Hc.
  change (c :: reverse s) with (reverse [c] ++ reverse s).
  by rewrite <- reverse_app, reverse_involutive.
Qed.

Lemma rstrip_cons_false p c s : p c = false → rstrip p (c :: s) = c :: rstrip p s.
Proof.
  intros Hc. unfold rstrip. rewrite reverse_cons, lstrip_app_false by done.
  by rewrite reverse_app.
Qed.

Lemma rstrip_prefix p s : rstrip p s `prefix_of` s.
Proof.
  unfold rstrip. destruct (lstrip_suffix p (reverse s)) as [k Hk].
  exists (reverse k). apply (inj reverse).
  by rewrite reverse_app, !reverse_involutive.
Qed.

Lemma rstrip_length p s : (length (rstrip p s) ≤ length s)%nat.
Proof. apply prefix_length, rstrip_prefix. Qed.

Lemma rstrip_Forall (P : N → Prop) p s : Forall P s → Forall P (rstrip p s).
Proof.
  intros H. destruct (rstrip_prefix p s) as [k Hk].
  rewrite Hk in H. by apply Forall_app in H as [? _].
Qed.

Lemma lstrip_Forall (P : N → Prop) p s : Forall P s → Forall P (lstrip p s).
Proof.
  intros H. destruct (lstrip_suffix p s) as [k Hk].
  rewrite Hk in H. by apply Forall_app in H as [_ ?].
Qed.

Lemma rstrip_last p s c : last (rstrip p s) = Some c → p c = false.
Proof.
  unfold rstrip. rewrite last_reverse.
  destruct (lstrip p (reverse s)) as [|a l] eqn:E; [done|].
  intros [= ->]. by eapply lstrip_head.
Qed.

Lemma rstrip_all p s : Forall (λ c, p c = true) s → rstrip p s = [].
Proof.
  intros H. unfold rstrip. rewrite lstrip_all; [done|].
  by apply Forall_reverse.
Qed.

Lemma rstrip_nil_all p s : rstrip p s = [] → Forall (λ c, p c = true) s.
Proof.
  unfold rstrip. intros H.
  apply (f_equal reverse) in H. rewrite reverse_involutive in H.
  apply lstrip_nil_all in H. apply Forall_reverse in H.
  by rewrite reverse_involutive in H.
Qed.

(** A string whose last character is outside the class is left as it is. *)
Lemma rstrip_id p s :
  (∀ c, last s = Some c → p c = false) → rstrip p s = s.
Proof.
  destruct s as [|a s _] using rev_ind; [done|].
  intros H. apply rstrip_snoc_false, H. by rewrite last_snoc.
Qed.

(** *** Strings without whitespace at either end *)

Lemma lstrip_id p s :
  (∀ c, head s = Some c → p c = false) → lstrip p s = s.
Proof. destruct s as [|a s]; [done|]. intros H. simpl. by rewrite H. Qed.

Lemma trimmed_strip s : trimmed s → strip s = s.
Proof.
  intros [H1 H2]. unfold strip. rewrite (lstrip_id _ s) by done.
  by apply rstrip_id.
Qed.

Lemma strip_trimmed s : trimmed (strip s).
Proof.
  unfold strip. split.
  - intros c. destruct (lstrip isspace s) as [|a l] eqn:E; [done|].
    pose proof (lstrip_head _ _ _ _ E) as Ha.
    rewrite rstrip_cons_false by done. by intros [= <-].
  - intros c. apply rstrip_last.
Qed.

Lemma strip_idemp s : strip (strip s) = strip s.
Proof. apply trimmed_strip, strip_trimmed. Qed.

Lemma trimmed_nil : trimmed [].
Proof. by split. Qed.

Lemma join_cons2 sep p q ps : join sep (p :: q :: ps) = p ++ sep ++ join sep (q :: ps).
Proof. done. Qed.

(** Joining non-empty trimmed parts gives a trimmed string, whatever the
    separator. *)
Lemma join_trimmed sep parts :
  Forall (λ p, p ≠ [] ∧ trimmed p) parts → trimmed (join sep parts).
Proof.
  induction 1 as [|p ps [Hne [Hs He]] Hps IH]; [apply trimmed_nil|].
  destruct ps as [|q ps]; [by split|].
  rewrite join_cons2. destruct IH as [_ IHe]. split.
  - intros c. destruct p as [|a p]; [done|]. apply Hs.
  - intros c. rewrite !last_app.
    assert (join sep (q :: ps) ≠ []) as Hj.
    { apply Forall_cons in Hps as [[Hq _] _].
      destruct ps; simpl; [done|]. destruct q; [done | done]. }
    destruct (last (join sep (q :: ps))) eqn:E.
    + intros [= <-]. by apply IHe.
    + apply last_None in E. done.
Qed.

Lemma join_nonempty sep p ps : p ≠ [] → join sep (p :: ps) ≠ [].
Proof. destruct ps; simpl; [done|]. by destruct p. Qed.

End StrFacts.

(** ** sanitize_filename *)

Module SanitizeFacts.
Import Str Sanitize StrFacts.

#[local] Arguments mem : simpl never.
#[local] Arguments is_safe : simpl never.
#[local] Arguments is_word : simpl never.
#[local] Arguments is_alnum : simpl never.
#[local] Arguments isspace : simpl never.
#[local] Arguments N.eqb : simpl never.

Lemma is_word_spec c :
  is_word c = true ↔ (65 ≤ c ≤ 90 ∨ 97 ≤ c ≤ 122 ∨ 48 ≤ c ≤ 57 ∨ c = 95).
Proof.
  unfold is_word. rewrite orb_true_iff, is_alnum_spec, N.eqb_eq. tauto.
Qed.

Lemma is_safe_spec c :
  is_safe c = true ↔ (is_word c = true ∨ c = 45).
Proof. unfold is_safe, is_word. rewrite !orb_true_iff, !N.eqb_eq. tauto. Qed.

Lemma word_safe c : is_word c = true → is_safe c = true.
Proof. rewrite is_safe_spec. tauto. Qed.

Lemma word_not_space c : is_word c = true → isspace c = false.
Proof.
  intros H%is_word_spec. destruct (isspace c) eqn:E; [|done].
  apply isspace_spec in E. lia.
Qed.

Lemma alnum_word c : is_alnum c = true → is_word c = true.
Proof. unfold is_word. by intros ->. Qed.

Lemma alnum_not_underscore c : is_alnum c = true → (c =? 95) = false.
Proof. intros H%is_alnum_spec. apply N.eqb_neq. lia. Qed.

(** *** What the cleaning steps leave *)

(** Lines 38-39 leave word characters only: the hyphen is punctuation and
    is deleted before the safe class is applied. *)
Lemma clean_core_word s :
  Forall (λ c, is_word c = true)
    (List.filter is_safe (replace_char 32 95 (translate_delete PUNCT_TABLE s))).
Proof.
  unfold PUNCT_TABLE, translate_delete, replace_char.
  induction s as [|c s IH]; simpl; [constructor|].
  destruct (mem c punctuation) eqn:Hp; simpl; [done|].
  destruct (N.eqb_spec c 32) as [->|Hc]; simpl.
  - by constructor.
  - destruct (is_safe c) eqn:Hs; [|done].
    constructor; [|done].
    apply is_safe_spec in Hs as [Hs| ->]; [done|]. by vm_compute in Hp.
Qed.

Lemma clean_word title : Forall (λ c, is_word c = true) (clean title).
Proof. apply clean_core_word. Qed.

Lemma sub_ws_runs_id b s :
  Forall (λ c, isspace c = false) s → sub_ws_runs b s = s.
Proof.
  intros H. revert b. induction H as [|c s Hc _ IH]; intros b; simpl; [done|].
  by rewrite Hc, IH.
Qed.

Lemma strip_id s : Forall (λ c, isspace c = false) s → strip s = s.
Proof.
  intros H. apply trimmed_strip. split; intros c Hc.
  - destruct s; simplify_eq/=. by apply Forall_cons in H as [? _].
  - apply last_Some in Hc as [l ->]. by apply Forall_app in H as [_ [? _]%Forall_cons].
Qed.

(** On a string of word characters, cleaning only deletes the
    underscores. *)
Lemma clean_of_word s :
  Forall (λ c, is_word c = true) s →
  clean s = List.filter (λ c, negb (c =? 95)) s.
Proof.
  intros H. unfold clean.
  assert (Forall (λ c, isspace c = false) s) as Hws.
  { eapply Forall_impl; [done|]. apply word_not_space. }
  rewrite strip_id by done. unfold collapse_ws. rewrite sub_ws_runs_id by done.
  clear Hws. unfold PUNCT_TABLE, translate_delete, replace_char.
  induction H as [|c s Hc _ IH]; simpl; [done|].
  apply is_word_spec in Hc.
  destruct (N.eqb_spec c 95) as [->|Hne]; simpl.
  - change (mem 95 punctuation) with true. simpl. apply IH.
  - assert (is_alnum c = true) as Ha by (apply is_alnum_spec; lia).
    rewrite (alnum_not_punct c Ha). simpl.
    destruct (N.eqb_spec c 32) as [->|_]; [lia|]. simpl.
    rewrite (word_safe c (alnum_word c Ha)). by rewrite IH.
Qed.

(** *** What the finishing steps return *)

Lemma reserved_shape x :
  is_reserved x = true → Forall (λ c, is_alnum c = true) x ∧ (length x ≤ 4)%nat.
Proof.
  unfold is_reserved. intros H%bool_decide_eq_true.
  assert (forallb (λ x, forallb is_alnum x && (length x <=? 4)%nat)
            WINDOWS_RESERVED = true) as Hall by reflexivity.
  rewrite forallb_forall in Hall. apply list_elem_of_In, Hall in H.
  apply andb_true_iff in H as [H1 H2]. split.
  - apply Forall_forall. intros c Hc. rewrite forallb_forall in H1.
    by apply H1, list_elem_of_In.
  - by apply Nat.leb_le.
Qed.

Lemma upper_alnum c : is_alnum (upper_char c) = true → is_alnum c = true.
Proof.
  unfold upper_char. destruct (is_lower c) eqn:E; [|done]. intros _.
  unfold is_lower in E. apply andb_true_iff in E as [H1%N.leb_le H2%N.leb_le].
  apply is_alnum_spec. lia.
Qed.

Lemma reserved_upper_shape r :
  is_reserved (upper r) = true →
  Forall (λ c, is_alnum c = true) r ∧ (length r ≤ 4)%nat.
Proof.
  intros [H1 H2]%reserved_shape. unfold upper in *. split.
  - apply List.Forall_map in H1. eapply Forall_impl; [done|].
    intros c. apply upper_alnum.
  - by rewrite List.length_map in H2.
Qed.

Lemma alnum_last s c :
  Forall (λ c, is_alnum c = true) s → last s = Some c → (95 =? c) = false.
Proof.
  intros H [l ->]%last_Some. apply Forall_app in H as [_ [H _]%Forall_cons].
  rewrite N.eqb_sym. by apply alnum_not_underscore.
Qed.

Lemma slice_to_default s : slice_to default_max_len s = take 120 s.
Proof. done. Qed.

Lemma finish_word k base :
  Forall (λ c, is_word c = true) base →
  Forall (λ c, is_word c = true) (finish k base).
Proof.
  intros H. unfold finish. apply rstrip_Forall.
  assert (∀ x : str, Forall (λ c, is_word c = true) x →
            Forall (λ c, is_word c = true) (slice_to k x)) as Hslice.
  { intros x Hx. unfold slice_to. destruct (0 <=? k)%Z; by apply Forall_take. }
  apply Hslice.
  set (b := if bool_decide (base = []) then lit "untitled" else base).
  assert (Forall (λ c, is_word c = true) b) as Hb.
  { unfold b. case_bool_decide; [|done].
    apply Forall_forall. intros c Hc%list_elem_of_In.
    assert (forallb is_word (lit "untitled") = true) as Hu by reflexivity.
    rewrite forallb_forall in Hu. by apply Hu. }
  destruct (is_reserved (upper b)); [|done].
  apply Forall_app. split; [by repeat constructor|].
  apply Forall_app. split; [done | by repeat constructor].
Qed.

Lemma finish_length base : (length (finish default_max_len base) ≤ 120)%nat.
Proof.
  unfold finish. etrans; [apply rstrip_length|].
  rewrite slice_to_default, length_take. lia.
Qed.

Lemma finish_last k base c : last (finish k base) = Some c → c ≠ 95.
Proof.
  unfold finish. intros H%rstrip_last. apply N.eqb_neq in H. congruence.
Qed.

(** The finishing steps on a string of letters and digits that fits. *)
Lemma finish_alnum u :
  Forall (λ c, is_alnum c = true) u → (length u ≤ 120)%nat →
  finish default_max_len u =
    if bool_decide (u = []) then lit "untitled"
    else if is_reserved (upper u) then 95 :: u else u.
Proof.
  intros Hu Hlen. unfold finish. case_bool_decide as Hnil.
  - subst u. reflexivity.
  - rewrite slice_to_default. destruct (is_reserved (upper u)) eqn:Hres.
    + apply reserved_upper_shape in Hres as [_ Hl].
      rewrite take_ge by (rewrite !length_app; simpl; lia).
      change ([95] ++ u ++ [95]) with (95 :: (u ++ [95])).
      rewrite app_comm_cons, rstrip_snoc_true by done.
      apply rstrip_id. intros c. destruct u as [|a u]; [done|].
      change (last (95 :: a :: u)) with (last (a :: u)). by apply alnum_last.
    + rewrite take_ge by done. apply rstrip_id. intros c. by apply alnum_last.
Qed.

(** *** The result of sanitize_filename *)

Lemma sanitize_word title k :
  Forall (λ c, is_word c = true) (sanitize_filename title k).
Proof. apply finish_word, clean_word. Qed.

Lemma sanitize_length title :
  (length (sanitize_filename title default_max_len) ≤ 120)%nat.
Proof. apply finish_length. Qed.

Lemma sanitize_last title k c :
  last (sanitize_filename title k) = Some c → c ≠ 95.
Proof. apply finish_last. Qed.

Lemma drop_underscores_alnum s :
  Forall (λ c, is_word c = true) s →
  Forall (λ c, is_alnum c = true) (List.filter not_underscore s).
Proof.
  induction 1 as [|c s Hc _ IH]; simpl; [constructor|].
  unfold not_underscore at 1. destruct (N.eqb_spec c 95) as [->|Hne]; simpl; [done|].
  constructor; [|done]. apply is_word_spec in Hc. apply is_alnum_spec. lia.
Qed.

Lemma drop_underscores_id s :
  List.filter not_underscore s = s ↔ mem 95 s = false.
Proof.
  induction s as [|c s IH]; [done|].
  simpl. unfold not_underscore at 1. unfold mem in *. simpl.
  rewrite (N.eqb_sym 95 c). destruct (N.eqb_spec c 95) as [->|Hne]; simpl.
  - split; [|done]. intros H.
    pose proof (List.filter_length_le not_underscore s) as Hl.
    rewrite H in Hl. simpl in Hl. lia.
  - rewrite <- IH. split; [by intros [= ->] | by intros ->].
Qed.

Lemma drop_underscores_nil s :
  List.filter not_underscore s = [] → (∀ c, last s = Some c → c ≠ 95) → s = [].
Proof.
  intros H Hlast. destruct s as [|a s _] using rev_ind; [done|].
  rewrite List.filter_app in H. apply app_eq_nil in H as [_ H]. simpl in H.
  unfold not_underscore in H. destruct (N.eqb_spec a 95) as [->|]; [|done].
  by destruct (Hlast 95 (last_snoc _ _)).
Qed.

(** A second pass over a name that sanitize_filename could have returned:
    the underscores go, and the result is "untitled", the rest behind one
    underscore, or the rest. *)
Lemma sanitize_of_word s :
  Forall (λ c, is_word c = true) s → (length s ≤ 120)%nat →
  sanitize_filename s default_max_len =
    let u := List.filter not_underscore s in
    if bool_decide (u = []) then lit "untitled"
    else if is_reserved (upper u) then 95 :: u else u.
Proof.
  intros Hw Hlen. unfold sanitize_filename. rewrite clean_of_word by done.
  apply finish_alnum; [by apply drop_underscores_alnum|].
  etrans; [apply List.filter_length_le | done].
Qed.

Lemma alnum_no_underscore u :
  Forall (λ c, is_alnum c = true) u → mem 95 u = false.
Proof.
  intros H. destruct (mem 95 u) eqn:E; [|done].
  apply mem_spec in E. rewrite Forall_forall in H. by apply H in E.
Qed.

(** Which names a second pass leaves alone. *)
Lemma sanitize_fixpoint s :
  Forall (λ c, is_word c = true) s → (length s ≤ 120)%nat →
  (∀ c, last s = Some c → c ≠ 95) →
  sanitize_filename s default_max_len = s ↔ stable_name s = true.
Proof.
  intros Hw Hlen Hlast. rewrite sanitize_of_word by done. cbv zeta.
  pose proof (drop_underscores_alnum s Hw) as Hu.
  pose proof (drop_underscores_id s) as Hid.
  remember (List.filter not_underscore s) as u eqn:Eu.
  unfold stable_name, Str.eqb.
  case_bool_decide as Hnil.
  - rewrite Eu in Hnil. apply drop_underscores_nil in Hnil as ->; [|done]. done.
  - destruct (is_reserved (upper u)) eqn:Hres.
    + split.
      * intros Hs. rewrite <- Hs. simpl. by rewrite Hres.
      * intros H. apply andb_true_iff in H as [_ H].
        apply orb_true_iff in H as [H|H].
        -- apply andb_true_iff in H as [H1%negb_true_iff H2%negb_true_iff].
           apply Hid in H1. congruence.
        -- destruct s as [|c r]; [done|].
           apply andb_true_iff in H as [->%N.eqb_eq Hr].
           apply reserved_upper_shape in Hr as [Hr _].
           f_equal. rewrite Eu. simpl.
           apply drop_underscores_id. by apply alnum_no_underscore.
    + split.
      * intros Hus. rewrite Hus in Hres, Hnil, Hid.
        rewrite bool_decide_eq_false_2 by done. simpl.
        rewrite (proj1 Hid eq_refl), Hres. done.
      * intros H. apply andb_true_iff in H as [_ H].
        apply orb_true_iff in H as [H|H].
        -- apply andb_true_iff in H as [H1%negb_true_iff _]. by apply Hid.
        -- destruct s as [|c r]; [done|].
           apply andb_true_iff in H as [->%N.eqb_eq Hr].
           pose proof (reserved_upper_shape _ Hr) as [Hra _].
           assert (u = r) as Hur.
           { rewrite Eu. simpl. apply drop_underscores_id.
             by apply alnum_no_underscore. }
           congruence.
Qed.

(** Every result is made of letters, digits and underscores (so it matches
    [^[A-Za-z0-9_-]{0,120}$]), has at most 120 characters and does not end
    in an underscore. *)
Lemma sanitize_filename_shape title :
  let r := sanitize_filename title default_max_len in
  Forall (λ c, is_word c = true) r ∧ Forall (λ c, is_safe c = true) r
  ∧ (length r ≤ 120)%nat ∧ last r ≠ Some 95.
Proof.
  cbv zeta. pose proof (sanitize_word title default_max_len) as Hw.
  split; [done|]. split; [|split].
  - eapply Forall_impl; [done|]. apply word_safe.
  - apply sanitize_length.
  - intros H. by apply sanitize_last in H.
Qed.

Example sanitize_plain :
  sanitize_filename (lit "  Hello,   World! - x_y  ") default_max_len
  = lit "Hello_World__xy".
Proof. reflexivity. Qed.

Example sanitize_device_name :
  sanitize_filename (lit "con") default_max_len = lit "_con".
Proof. reflexivity. Qed.

Example sanitize_empty_title :
  sanitize_filename [] default_max_len = lit "untitled".
Proof. reflexivity. Qed.

(** C1. sanitize_filename does return a reserved device name, and does
    return the empty string: the title [CON !] is cleaned to [CON_], which
    is not a reserved name when line 42 looks, and line 44 then strips the
    underscore; the title [! !] is cleaned to one underscore, which is not
    empty when line 40 looks, and line 44 strips it. *)
Theorem sanitize_filename_reserved_and_empty :
  clean (lit "CON !") = lit "CON_"
  ∧ sanitize_filename (lit "CON !") default_max_len = lit "CON"
  ∧ is_reserved (upper (lit "CON")) = true
  ∧ clean (lit "! !") = lit "_"
  ∧ sanitize_filename (lit "! !") default_max_len = [].
Proof. by vm_compute. Qed.

(** C2, as stated, fails: the name made from [a b] is [a_b], and a second
    pass deletes the underscore as punctuation. *)
Lemma sanitize_not_idempotent :
  sanitize_filename (sanitize_filename (lit "a b") default_max_len) default_max_len
  ≠ sanitize_filename (lit "a b") default_max_len.
Proof. by vm_compute. Qed.

(** C2, amended. Let [s] be the name sanitize_filename returns for a title.
    Sanitizing [s] again yields [s] exactly when [s] is non-empty and either
    holds no underscore and is not a reserved device name, or is one
    underscore followed by a reserved device name (case-insensitively); and
    whatever [s] is, the name obtained from [s] is left unchanged by every
    further pass. *)
Theorem sanitize_twice title :
  let s := sanitize_filename title default_max_len in
  (sanitize_filename s default_max_len = s ↔ stable_name s = true)
  ∧ sanitize_filename (sanitize_filename s default_max_len) default_max_len
    = sanitize_filename s default_max_len.
Proof.
  cbv zeta. set (s := sanitize_filename title default_max_len).
  pose proof (sanitize_word title default_max_len) as Hw.
  pose proof (sanitize_length title) as Hlen.
  pose proof (sanitize_last title default_max_len) as Hlast.
  fold s in Hw, Hlen, Hlast. split; [by apply sanitize_fixpoint|].
  apply sanitize_fixpoint.
  - apply sanitize_word.
  - apply sanitize_length.
  - apply sanitize_last.
  - rewrite sanitize_of_word by done. cbv zeta.
    pose proof (drop_underscores_alnum s Hw) as Hu.
    remember (List.filter not_underscore s) as u eqn:Eu.
    case_bool_decide as Hnil; [reflexivity|].
    unfold stable_name, Str.eqb.
    destruct (is_reserved (upper u)) eqn:Hres.
    + simpl. by rewrite Hres.
    + rewrite bool_decide_eq_false_2 by done.
      by rewrite (alnum_no_underscore u Hu), Hres.
Qed.

End SanitizeFacts.

(** ** Field extraction *)

Module ExtractFacts.
Import Str Soup Extract Samples StrFacts.

Lemma eqb_nil_false (s : str) : s ≠ [] → Str.eqb s [] = false.
Proof. intros H. unfold Str.eqb. by apply bool_decide_eq_false_2. Qed.

Lemma eqb_spec (a b : str) : Str.eqb a b = true ↔ a = b.
Proof. unfold Str.eqb. apply bool_decide_eq_true. Qed.

(** *** The queries on sample documents *)

(** The descendant combinator looks through all ancestors, a class is one
    word of the [class] attribute, and a group selector returns the first
    match in document order. *)
Example select_descendant :
  select_one [[with_id "content" (tag_ "div"); with_class "c-article-body" (tag_ "div")]]
    doc_two_containers
  = Some (Elem "div" [("class"%string, lit "c-article-body")] [p_ " "]).
Proof. reflexivity. Qed.

Example select_class_word :
  select_one [[with_class "b" (tag_ "p")]]
    [Elem "p" [("class"%string, lit "ab")] [];
     Elem "p" [("class"%string, lit "a  b c")] [Text (lit "x")]]
  = Some (Elem "p" [("class"%string, lit "a  b c")] [Text (lit "x")]).
Proof. reflexivity. Qed.

Example select_group_document_order :
  select_one teaser_visible_selector
    [Elem "div" [("class"%string, lit "c-article-teaser")] [p_ "first"];
     Elem "p" [("class"%string, lit "article__teaser")] [Text (lit "second")]]
  = Some (p_ "first").
Proof. reflexivity. Qed.

Example get_text_joins_stripped_pieces :
  get_text (lit " ") true
    (Elem "p" [] [Text (lit "  One "); Elem "b" [] [Text (lit " ")]; Text (lit "two.  ")])
  = lit "One two.".
Proof. reflexivity. Qed.

(** The suffix pattern on a few titles: the match runs to the end of the
    string, and a newline after the publisher name prevents it. *)
Example suffix_removed :
  sub_nature_suffix (lit "Article | Nature News") = lit "Article"
  ∧ sub_nature_suffix (lit "a | Nature x | Nature y") = lit "a"
  ∧ sub_nature_suffix (lit "x | nature") = lit "x | nature"
  ∧ sub_nature_suffix (lit "Foo | Nature" ++ [10] ++ lit "Bar")
    = lit "Foo | Nature" ++ [10] ++ lit "Bar"
  ∧ sub_nature_suffix (lit "Foo | Nature" ++ [10]) = lit "Foo" ++ [10].
Proof. by vm_compute. Qed.

(** *** get_text with strip=True *)

Lemma stripped_strings t :
  Forall (λ p, p ≠ [] ∧ trimmed p)
    (List.filter (λ s, negb (Str.eqb s [])) (map strip (strings t))).
Proof.
  apply Forall_forall. intros p [Hp Hnz]%list_elem_of_In%filter_In. split.
  - intros ->. done.
  - apply in_map_iff in Hp as (s & <- & _). apply strip_trimmed.
Qed.

Lemma get_text_trimmed sep t : trimmed (get_text sep true t).
Proof. apply join_trimmed, stripped_strings. Qed.

Lemma get_text_strip sep t : strip (get_text sep true t) = get_text sep true t.
Proof. apply trimmed_strip, get_text_trimmed. Qed.

(** *** The body loop *)

Lemma paragraphs_trimmed body :
  Forall (λ p, p ≠ [] ∧ trimmed p) (paragraphs body).
Proof.
  apply Forall_forall. intros p [Hp Hnz]%list_elem_of_In%filter_In. split.
  - intros ->. done.
  - apply in_map_iff in Hp as (t & <- & _). apply get_text_trimmed.
Qed.

(** The loop stops at the first selector whose container has non-empty
    paragraphs. *)
Lemma body_from_find doc sels :
  body_from doc sels [] =
    match List.find (λ body, negb (bool_decide (paragraphs body = [])))
            (omap (λ sel, select_one sel doc) sels) with
    | Some body => paragraphs body
    | None => []
    end.
Proof.
  induction sels as [|sel rest IH]; [done|].
  simpl. destruct (select_one sel doc) as [body|]; simpl; [|done].
  destruct (paragraphs body) as [|p ps] eqn:E; simpl; [done|].
  by rewrite E.
Qed.

Lemma first_body_paragraphs_trimmed doc :
  Forall (λ p, p ≠ [] ∧ trimmed p) (first_body_paragraphs doc).
Proof.
  unfold first_body_paragraphs.
  destruct (List.find _ _); [apply paragraphs_trimmed | constructor].
Qed.

(** *** The teaser *)

Lemma teaser_from_meta_trimmed doc sels t :
  trimmed t → trimmed (teaser_from_meta doc sels t).
Proof.
  revert t. induction sels as [|[sel attr] rest IH]; intros t Ht; simpl; [done|].
  destruct (select_one sel doc) as [tag|]; [|by apply IH].
  destruct (negb (Str.eqb (or_empty (tag_get attr tag)) [])); [|by apply IH].
  destruct (negb (Str.eqb (strip (or_empty (tag_get attr tag))) [])) eqn:E.
  - apply strip_trimmed.
  - apply IH, strip_trimmed.
Qed.

Lemma find_teaser_trimmed doc : trimmed (find_teaser doc).
Proof.
  unfold find_teaser.
  pose proof (teaser_from_meta_trimmed doc teaser_meta_selectors [] trimmed_nil) as H.
  destruct (Str.eqb _ []); [|done].
  destruct (select_one _ _); [apply get_text_trimmed | done].
Qed.

(** *** The final text *)

Lemma final_text_expected parts teaser :
  Forall (λ p, p ≠ [] ∧ trimmed p) parts → trimmed teaser →
  final_text parts teaser =
    match parts with
    | _ :: _ => join BLANK_LINE parts
    | [] => if bool_decide (teaser = []) then NO_CONTENT else teaser
    end.
Proof.
  intros Hparts Ht. unfold final_text.
  rewrite (trimmed_strip (join _ _)) by by apply join_trimmed.
  rewrite (trimmed_strip teaser) by done.
  destruct parts as [|p ps].
  - simpl. unfold Str.eqb. repeat case_bool_decide; congruence.
  - apply Forall_cons in Hparts as [[Hp _] _].
    by rewrite !(eqb_nil_false _ (join_nonempty BLANK_LINE p ps Hp)).
Qed.

Lemma body_from_first doc : body_from doc body_selectors [] = first_body_paragraphs doc.
Proof. by rewrite body_from_find. Qed.

(** The loop over the description tags and the look at the visible teaser
    element compute the teaser of the specification. *)
Lemma find_teaser_expected doc : find_teaser doc = expected_teaser doc.
Proof.
  unfold find_teaser, expected_teaser, description, teaser_meta_selectors,
    teaser_visible_selector.
  cbn [teaser_from_meta List.find]. unfold or_empty, Str.eqb.
  assert (Hnil : strip [] = []) by reflexivity.
  destruct (select_one [[with_attr "property" _ _]] doc) as [og|];
    destruct (select_one [[with_attr "name" _ _]] doc) as [plain|];
    repeat match goal with
      | |- context [tag_get "content"%string ?t] =>
          generalize (default [] (tag_get "content"%string t)); intros ?
      end.
  all: repeat match goal with
         | |- context [@bool_decide (strip ?l = []) ?d] =>
             is_var l; let E := fresh "E" in
             destruct (decide (strip l = [])) as [E|E];
             [ rewrite !(@bool_decide_eq_true_2 (strip l = []) d E);
               try rewrite !E
             | rewrite !(@bool_decide_eq_false_2 (strip l = []) d E) ];
             cbn [negb]
         end.
  all: repeat match goal with
         | |- context [@bool_decide (?l = []) ?d] =>
             is_var l; let E := fresh "E" in
             destruct (decide (l = [])) as [E|E];
             [ rewrite !(@bool_decide_eq_true_2 (l = []) d E)
             | rewrite !(@bool_decide_eq_false_2 (l = []) d E) ];
             cbn [negb]
         end.
  all: repeat case_bool_decide; cbn [negb]; try done.
  all: subst; rewrite ?Hnil in *; congruence.
Qed.

(** C3. For every article document the final text is the non-empty
    paragraph texts of the first body container that has any, joined by a
    blank line; else the teaser (the first non-empty description,
    og:description before description, else the text of the visible teaser
    element); else the sentinel. The container with paragraphs A., B., C.
    and no teaser gives the three joined by blank lines, and the document
    with neither body nor teaser gives the sentinel. On documents with a
    teaser: a description alone is returned stripped, a blank
    og:description gives way to the description, og:description wins
    wherever it stands, a visible teaser element is used when there is no
    description and not otherwise, and a body with paragraphs wins over the
    teaser while one without does not. *)
Theorem final_text_is_expected :
  (∀ doc, (extract_teaser_or_body doc).1 = expected_text doc)
  ∧ find_teaser doc_abc = []
  ∧ (extract_teaser_or_body doc_abc).1
    = lit "A." ++ [10; 10] ++ lit "B." ++ [10; 10] ++ lit "C."
  ∧ (extract_teaser_or_body doc_bare).1 = lit "No content available."
  ∧ expected_teaser doc_abc = [] ∧ expected_teaser doc_bare = []
  ∧ (extract_teaser_or_body doc_description_only).1 = lit "A summary."
  ∧ (extract_teaser_or_body doc_og_blank).1 = lit "Second."
  ∧ (extract_teaser_or_body doc_both_descriptions).1 = lit "Graph."
  ∧ (extract_teaser_or_body doc_visible_teaser).1 = lit "Seen."
  ∧ (extract_teaser_or_body doc_nested_teaser).1 = lit "Below."
  ∧ (extract_teaser_or_body doc_description_and_teaser).1 = lit "Graph."
  ∧ (extract_teaser_or_body doc_blank_body).1 = lit "Teaser."
  ∧ (extract_teaser_or_body doc_two_containers).1 = lit "Late."
  ∧ (extract_teaser_or_body doc_old_layout).1 = lit "Old.".
Proof.
  split; [|by vm_compute].
  intros doc. unfold extract_teaser_or_body, expected_text. cbn [fst].
  rewrite body_from_first, <- find_teaser_expected.
  apply final_text_expected;
    [apply first_body_paragraphs_trimmed | apply find_teaser_trimmed].
Qed.

(** The container that decides is the first one with a non-empty
    paragraph, not the first one a selector finds. *)
Example later_container_wins :
  (extract_teaser_or_body doc_two_containers).1 = lit "Late.".
Proof. reflexivity. Qed.

(** *** The title *)

Example title_from_citation_meta :
  extract_title doc_citation_title = lit "Foo Bar".
Proof. reflexivity. Qed.

Example title_content_rejected :
  extract_title doc_content_leak = lit "Real title".
Proof. reflexivity. Qed.

Lemma sub_nature_suffix_no_title : sub_nature_suffix (lit "No Title") = lit "No Title".
Proof. reflexivity. Qed.

(** Without a title element the last fallback gives the literal. *)
Lemma extract_title_without_title_element doc :
  title_from_meta doc title_meta_selectors = None →
  title_from_h1 doc title_h1_selectors = None →
  find "title" [] doc = None →
  extract_title doc = lit "No Title".
Proof. intros H1 H2 H3. unfold extract_title. by rewrite H1, H2, H3. Qed.

(** C4. extract_title does return the empty string: with no usable meta
    tag and no heading, a title element that is empty, or that holds only
    the publisher suffix, makes line 77 take its (empty) text instead of
    the literal of the last fallback. *)
Theorem extract_title_empty_string :
  title_from_meta doc_title_suffix_only title_meta_selectors = None
  ∧ title_from_h1 doc_title_suffix_only title_h1_selectors = None
  ∧ extract_title doc_title_suffix_only = []
  ∧ extract_title doc_title_empty = [].
Proof. by vm_compute. Qed.

(** *** The metadata mapping *)

Lemma published_never_empty doc : extract_meta doc !! "published"%string ≠ Some [].
Proof.
  unfold extract_meta.
  repeat case_match; simplify_map_eq; try done; by intros [= ->].
Qed.

Lemma meta_omitted_when_absent doc :
  select_one [[with_attr "name" "dc.date" (tag_ "meta")]] doc = None →
  select_one [[with_attr "itemprop" "datePublished" (tag_ "meta")]] doc = None →
  select_one [[with_attr "name" "dc.type" (tag_ "meta")]] doc = None →
  select_one [[with_attr "data-test" "article.type" (tag_ "span")]] doc = None →
  extract_meta doc = ∅.
Proof. intros H1 H2 H3 H4. unfold extract_meta. by rewrite H1, H2, H3, H4. Qed.

Example published_omitted_when_empty :
  (extract_teaser_or_body doc_date_empty).2 !! "published"%string = None
  ∧ (extract_teaser_or_body doc_date_empty).2 !! "type"%string = Some (lit "News").
Proof. by vm_compute. Qed.

(** C8. The metadata mapping does hold the empty string under "type": line
    126 stores whatever the content attribute holds, where line 122 stores
    the publication date only when it is not empty. *)
Theorem meta_type_empty_string :
  (extract_teaser_or_body doc_type_empty).2 !! "type"%string = Some [].
Proof. by vm_compute. Qed.

(** *** The listing *)

Lemma listing_item_type urljoin art it x :
  listing_item urljoin art = Some it → it_type it = Some x → trimmed x.
Proof.
  unfold listing_item. intros H Hx.
  destruct (tag_find "a" _ art) as [link|]; [|done].
  destruct (tag_get "href" link) as [href|]; [|done].
  destruct (Str.eqb href []); [done|].
  injection H as <-. simpl in Hx.
  destruct (tag_find "span" _ art) as [ty|]; [|done].
  injection Hx as <-. apply get_text_trimmed.
Qed.

Lemma parse_listing_type urljoin html it x :
  it ∈ parse_listing urljoin html → it_type it = Some x → trimmed x.
Proof.
  unfold parse_listing. intros (art & _ & H)%list_elem_of_omap.
  by eapply listing_item_type.
Qed.

(** On an item of a parsed listing, line 166 is the exact comparison. *)
Lemma type_matches_exact urljoin html article_type it :
  it ∈ parse_listing urljoin html →
  Crawl.type_matches article_type it = true
  ↔ article_type = [] ∨ it_type it = Some article_type.
Proof.
  intros Hit. unfold Crawl.type_matches.
  rewrite orb_true_iff, !eqb_spec.
  destruct (it_type it) as [x|] eqn:E; simpl.
  - rewrite (trimmed_strip x) by by eapply parse_listing_type.
    split; intros [?|?]; auto; [by right; f_equal | right; congruence].
  - change (strip []) with (@nil N). split; intros [?|?]; auto; done.
Qed.

End ExtractFacts.

(** ** The crawl loop *)

Module CrawlFacts.
Import Str Sanitize Soup Extract Samples Crawl SampleRuns StrFacts SanitizeFacts ExtractFacts.

(** *** Hexadecimal suffixes *)

Lemma hex_digit_is_hex d : d < 16 → is_hex_digit (hex_digit d) = true.
Proof.
  intros Hd. unfold hex_digit, is_hex_digit, is_digit.
  destruct (N.ltb_spec d 10).
  - apply orb_true_iff. left. apply andb_true_iff. rewrite !N.leb_le. lia.
  - apply orb_true_iff. right. apply andb_true_iff. rewrite !N.leb_le. lia.
Qed.

Lemma hex_digit_value_digit d : d < 16 → hex_digit_value (hex_digit d) = d.
Proof.
  intros Hd. unfold hex_digit, hex_digit_value, is_digit.
  destruct (N.ltb_spec d 10).
  - replace ((48 <=? 48 + d) && (48 + d <=? 57)) with true; [lia|].
    symmetry. apply andb_true_iff. rewrite !N.leb_le. lia.
  - replace ((48 <=? 87 + d) && (87 + d <=? 57)) with false; [lia|].
    symmetry. apply andb_false_iff. right. apply N.leb_gt. lia.
Qed.

Lemma hex_go_length fuel : ∀ n acc (k : nat),
  n < 16 ^ N.of_nat (S k) →
  (length acc < length (hex_go fuel n acc) ≤ S k + length acc)%nat.
Proof.
  induction fuel as [|fuel IH]; intros n acc k Hn; simpl; [lia|].
  destruct (N.ltb_spec n 16) as [|Hge]; [simpl; lia|].
  destruct k as [|k].
  { change (16 ^ N.of_nat 1) with 16 in Hn. lia. }
  assert (n / 16 < 16 ^ N.of_nat (S k)) as Hdiv.
  { apply N.Div0.div_lt_upper_bound.
    rewrite <- N.pow_succ_r', <- Nat2N.inj_succ. done. }
  specialize (IH (n / 16) (hex_digit (n mod 16) :: acc) k Hdiv). simpl in IH. lia.
Qed.

Lemma hex_go_digits fuel : ∀ n acc,
  n < 16 ^ N.of_nat (S fuel) →
  Forall (λ c, is_hex_digit c = true) acc →
  Forall (λ c, is_hex_digit c = true) (hex_go fuel n acc).
Proof.
  induction fuel as [|fuel IH]; intros n acc Hn Hacc; simpl.
  - constructor; [|done]. apply hex_digit_is_hex. by change (16 ^ N.of_nat 1) with 16 in Hn.
  - destruct (N.ltb_spec n 16) as [|Hge].
    + constructor; [|done]. by apply hex_digit_is_hex.
    + apply IH.
      * apply N.Div0.div_lt_upper_bound.
        rewrite <- N.pow_succ_r', <- Nat2N.inj_succ. done.
      * constructor; [|done]. apply hex_digit_is_hex. by apply N.mod_lt.
Qed.

Lemma hex_go_value fuel : ∀ n acc,
  n < 16 ^ N.of_nat (S fuel) →
  hex_value (hex_go fuel n acc) = hex_value_from n acc.
Proof.
  unfold hex_value.
  induction fuel as [|fuel IH]; intros n acc Hn; simpl.
  - unfold hex_value_from. simpl. rewrite hex_digit_value_digit; [done|].
    by change (16 ^ N.of_nat 1) with 16 in Hn.
  - destruct (N.ltb_spec n 16) as [|Hge].
    + unfold hex_value_from. simpl. by rewrite hex_digit_value_digit.
    + rewrite IH.
      * unfold hex_value_from. simpl.
        rewrite hex_digit_value_digit by by apply N.mod_lt.
        f_equal. pose proof (N.div_mod n 16). lia.
      * apply N.Div0.div_lt_upper_bound.
        rewrite <- N.pow_succ_r', <- Nat2N.inj_succ. done.
Qed.

Lemma hex_fuel n : n < 16 ^ N.of_nat (S (N.to_nat (N.log2 n))).
Proof.
  rewrite Nat2N.inj_succ, N2Nat.id.
  destruct (N.eq_dec n 0) as [->|Hn]; [done|].
  pose proof (N.log2_spec n ltac:(lia)) as [_ H].
  eapply N.lt_le_trans; [done|].
  apply N.pow_le_mono_l. lia.
Qed.

(** [hex n] is a string of hexadecimal digits that denotes [n]; it has at
    most [k] digits when [n < 16^k], and at least one. *)
Lemma hex_spec n (k : nat) :
  n < 16 ^ N.of_nat (S k) →
  hex_value (hex n) = n
  ∧ Forall (λ c, is_hex_digit c = true) (hex n)
  ∧ (1 ≤ length (hex n) ≤ S k)%nat.
Proof.
  intros Hn. unfold hex. split; [|split].
  - rewrite hex_go_value by apply hex_fuel. done.
  - apply hex_go_digits; [apply hex_fuel | constructor].
  - pose proof (hex_go_length (N.to_nat (N.log2 n)) n [] k Hn). simpl in *. lia.
Qed.

Lemma collision_suffix_spec hash url :
  let n := (Z.abs (hash url) mod 16 ^ 6)%Z in
  (0 ≤ n < 16 ^ 6)%Z
  ∧ Z.of_N (hex_value (collision_suffix hash url)) = n
  ∧ Forall (λ c, is_hex_digit c = true) (collision_suffix hash url)
  ∧ (1 ≤ length (collision_suffix hash url) ≤ 6)%nat.
Proof.
  cbv zeta. unfold collision_suffix.
  pose proof (Z.mod_pos_bound (Z.abs (hash url)) (16 ^ 6) ltac:(done)) as Hb.
  split; [done|].
  destruct (hex_spec (Z.to_N (Z.abs (hash url) mod 16 ^ 6)) 5) as (Hv & Hd & Hl).
  { change (16 ^ N.of_nat 6) with (Z.to_N (16 ^ 6)). lia. }
  rewrite Hv. split; [lia | done].
Qed.

(** *** Numerals without padding *)

Lemma hex_digit_not_zero d : d ≠ 0 → hex_digit d ≠ 48.
Proof. unfold hex_digit. destruct (N.ltb_spec d 10); lia. Qed.

(** The first digit [hex_go] writes for a positive number is not 0. *)
Lemma hex_go_head fuel : ∀ n acc,
  0 < n → ∃ d rest, d ≠ 0 ∧ hex_go fuel n acc = hex_digit d :: rest.
Proof.
  induction fuel as [|fuel IH]; intros n acc Hn; simpl.
  - exists n, acc. split; [lia | done].
  - destruct (N.ltb_spec n 16) as [|Hge].
    + exists n, acc. split; [lia | done].
    + apply IH. apply N.div_str_pos. lia.
Qed.

Lemma hex_head_zero n : head (hex n) = Some 48 → hex n = [48].
Proof.
  destruct (N.eq_dec n 0) as [->|Hn]; [done|].
  destruct (hex_go_head (N.to_nat (N.log2 n)) n [] ltac:(lia)) as (d & rest & Hd & E).
  unfold hex. rewrite E. simpl. intros [= H]. by apply hex_digit_not_zero in H.
Qed.

Lemma is_hex_digit_range c :
  is_hex_digit c = true → (48 ≤ c ≤ 57 ∧ is_digit c = true) ∨ (97 ≤ c ≤ 102 ∧ is_digit c = false).
Proof.
  unfold is_hex_digit, is_digit. intros H.
  apply orb_true_iff in H as [H|H]; apply andb_true_iff in H as [H1 H2];
    apply N.leb_le in H1, H2.
  - left. split; [lia|]. apply andb_true_iff. rewrite !N.leb_le. lia.
  - right. split; [lia|]. apply andb_false_iff. right. apply N.leb_gt. lia.
Qed.

Lemma hex_digit_value_lt c : is_hex_digit c = true → hex_digit_value c < 16.
Proof.
  intros [[H E]|[H E]]%is_hex_digit_range; unfold hex_digit_value; rewrite E; lia.
Qed.

Lemma hex_digit_value_inj c1 c2 :
  is_hex_digit c1 = true → is_hex_digit c2 = true →
  hex_digit_value c1 = hex_digit_value c2 → c1 = c2.
Proof.
  intros [[H1 E1]|[H1 E1]]%is_hex_digit_range [[H2 E2]|[H2 E2]]%is_hex_digit_range;
    unfold hex_digit_value; rewrite E1, E2; lia.
Qed.

Lemma hex_value_snoc s c : hex_value (s ++ [c]) = 16 * hex_value s + hex_digit_value c.
Proof. unfold hex_value, hex_value_from. by rewrite foldl_snoc. Qed.

Lemma head_snoc (s : str) c : s ≠ [] → head (s ++ [c]) = head s.
Proof. by destruct s. Qed.

(** A string of digits that does not start with 0 denotes 0 only when it is
    empty. *)
Lemma hex_value_zero s :
  Forall (λ c, is_hex_digit c = true) s → head s ≠ Some 48 → hex_value s = 0 → s = [].
Proof.
  induction s as [|c s IH] using rev_ind; [done|].
  intros [Hs Hc%Forall_inv]%Forall_app Hhead Hv. exfalso.
  rewrite hex_value_snoc in Hv.
  assert (c = 48) as ->.
  { apply hex_digit_value_inj; [done..|]. change (hex_digit_value 48) with 0. lia. }
  destruct (decide (s = [])) as [->|Hne]; [done|].
  rewrite head_snoc in Hhead by done. apply Hne, IH; [done..|lia].
Qed.

(** Two strings of digits that do not start with 0 and denote the same
    number are the same string. *)
Lemma hex_value_inj s : ∀ t,
  Forall (λ c, is_hex_digit c = true) s → Forall (λ c, is_hex_digit c = true) t →
  head s ≠ Some 48 → head t ≠ Some 48 →
  hex_value s = hex_value t → s = t.
Proof.
  induction s as [|c s IH] using rev_ind; intros t Hs Ht Hhs Hht Hv.
  { symmetry. by apply hex_value_zero. }
  destruct t as [|c' t _] using rev_ind.
  { by apply hex_value_zero. }
  apply Forall_app in Hs as [Hs Hc%Forall_inv].
  apply Forall_app in Ht as [Ht Hc'%Forall_inv].
  rewrite !hex_value_snoc in Hv.
  pose proof (hex_digit_value_lt c Hc). pose proof (hex_digit_value_lt c' Hc').
  assert (c = c') as <- by (apply hex_digit_value_inj; [done..|lia]).
  f_equal. apply IH; [done..| | |lia].
  - destruct (decide (s = [])) as [->|Hne]; [done|]. by rewrite head_snoc in Hhs.
  - destruct (decide (t = [])) as [->|Hne]; [done|]. by rewrite head_snoc in Hht.
Qed.

(** A number has one unpadded numeral. *)
Lemma unpadded_hex_unique s t n : unpadded_hex s n → unpadded_hex t n → s = t.
Proof.
  intros (Hs & Hds & Hzs & Hvs) (Ht & Hdt & Hzt & Hvt).
  destruct (decide (head s = Some 48)) as [Es|Es];
    destruct (decide (head t = Some 48)) as [Et|Et].
  - by rewrite (Hzs Es), (Hzt Et).
  - rewrite (Hzs Es) in Hvs. change (hex_value [48]) with 0 in Hvs.
    rewrite <- Hvs in Hvt. by apply hex_value_zero in Hvt.
  - rewrite (Hzt Et) in Hvt. change (hex_value [48]) with 0 in Hvt.
    rewrite <- Hvt in Hvs. by apply hex_value_zero in Hvs.
  - apply hex_value_inj; [done..|congruence].
Qed.

Lemma hex_unpadded n : unpadded_hex (hex n) n.
Proof.
  destruct (hex_spec n (N.to_nat (N.log2 n)) (hex_fuel n)) as (Hv & Hd & Hl).
  split; [|split; [done|split; [apply hex_head_zero | done]]].
  intros E. rewrite E in Hl. simpl in Hl. lia.
Qed.

Lemma collision_suffix_unpadded hash url :
  unpadded_hex (collision_suffix hash url) (Z.to_N (Z.abs (hash url) mod 16 ^ 6)).
Proof. apply hex_unpadded. Qed.

(** *** The base name *)

Lemma base_name_nonempty title : base_name title ≠ [].
Proof.
  unfold base_name, Str.eqb. case_bool_decide; [|done]. by vm_compute.
Qed.

(** In a process whose hash of the URL falls below [16^5] after the
    reduction, the suffix has fewer than six digits. *)
Lemma collision_suffix_short hash url :
  (Z.abs (hash url) mod 16 ^ 6 < 16 ^ 5)%Z →
  (length (collision_suffix hash url) ≤ 5)%nat.
Proof.
  intros Hlt. unfold collision_suffix.
  pose proof (Z.mod_pos_bound (Z.abs (hash url)) (16 ^ 6) ltac:(done)) as Hb.
  destruct (hex_spec (Z.to_N (Z.abs (hash url) mod 16 ^ 6)) 4) as (_ & _ & Hl).
  { change (16 ^ N.of_nat 5) with (Z.to_N (16 ^ 5)). lia. }
  lia.
Qed.

(** *** Traces *)

Lemma NoDup_snoc_fresh {A} (l : list A) (x : A) :
  NoDup l → x ∉ l → NoDup (l ++ [x]).
Proof.
  intros Hl Hx. apply NoDup_app. split; [done|]. split.
  - by intros y Hy ->%list_elem_of_singleton.
  - apply NoDup_singleton.
Qed.

Lemma article_gets_snoc tr e :
  article_gets (tr ++ [e]) = article_gets tr ++ article_gets [e].
Proof. unfold article_gets. by rewrite omap_app. Qed.

Lemma article_gets_app tr tr' :
  article_gets (tr ++ tr') = article_gets tr ++ article_gets tr'.
Proof. unfold article_gets. by rewrite omap_app. Qed.

Section Run.

Variable urljoin : str → str → str.
Variable hash : str → Z.
Variable session_get : nat → str → Z → response.
Variable pages : Z.
Variable article_type : str.
Variable year : option Z.
Variable delay : Q.
Variable files0 : gmap str str.

Abbreviation process_item := (process_item hash session_get delay).
Abbreviation save_article := (save_article hash delay).
Abbreviation process_page := (process_page urljoin hash session_get article_type year delay).
Abbreviation item_invariant := (item_invariant hash).
Abbreviation listed_seen := (listed_seen urljoin article_type).

(** An event that is neither a request for an article nor a sleep leaves
    the invariant alone. *)
Lemma item_invariant_emit e st :
  article_gets [e] = [] →
  item_invariant st → item_invariant (emit e st).
Proof.
  intros He [H1 H2 H3 H4 H5 H6 H7].
  split; simpl; rewrite ?article_gets_snoc, ?He, ?app_nil_r; try done.
  intros url. rewrite H4. split; intros [c Hc]; exists c.
  - apply elem_of_app. by left.
  - apply elem_of_app in Hc as [Hc|Hc%list_elem_of_singleton]; [done|].
    subst e. done.
Qed.

(** A URL that was seen is skipped: nothing is requested, printed or
    changed. *)
Lemma process_item_seen page_num st it :
  it_url it ∈ seen st → process_item page_num st it = st.
Proof. intros H. unfold Crawl.process_item. by rewrite bool_decide_eq_true_2. Qed.

Lemma target_path_cases page_num fname url st :
  let stem := page_dir page_num ++ lit "/" ++ fname in
  target_path hash page_num fname url st = stem ++ lit ".txt"
  ∨ target_path hash page_num fname url st
    = stem ++ lit "_" ++ collision_suffix hash url ++ lit ".txt".
Proof.
  cbv zeta. unfold target_path. case_bool_decide; [right | left];
    by rewrite <- ?(assoc_L (++)).
Qed.

Lemma fresh_url st url :
  item_invariant st → url ∉ seen st →
  (url ∉ article_gets (trace st)) ∧ (url ∉ map r_url (meta_f st)).
Proof.
  intros [H1 H2 H3 H4 H5 H6 H7] Hseen.
  assert (url ∉ article_gets (trace st)) as Hfresh by by rewrite <- H2.
  split; [done|]. intros [c Hc]%H4. apply Hfresh. unfold article_gets.
  apply list_elem_of_omap. by exists (Get url 20 (Response 200 c)).
Qed.

(** A request that is not answered with status 200 adds the URL to the
    seen set and to the requests, and no record. *)
Lemma item_invariant_failed url aresp st :
  item_invariant st → url ∉ seen st →
  (∀ c, aresp ≠ Response 200 c) →
  item_invariant (emit (Get url 20 aresp) (seen_add url st)).
Proof.
  intros Hinv Hseen Hresp.
  destruct (fresh_url st url Hinv Hseen) as [Hfresh Hnew].
  destruct Hinv as [H1 H2 H3 H4 H5 H6 H7].
  split; simpl; rewrite ?article_gets_snoc; simpl; try done.
  - by apply NoDup_snoc_fresh.
  - intros u. rewrite elem_of_union, elem_of_singleton, elem_of_app,
      list_elem_of_singleton, H2. tauto.
  - intros u. rewrite H4. split; intros [c Hc]; exists c.
    + apply elem_of_app. by left.
    + apply elem_of_app in Hc as [Hc|Hc%list_elem_of_singleton]; [done|].
      injection Hc as -> Hc. by destruct (Hresp c).
Qed.

(** A request answered with status 200 is extracted and saved. *)
Lemma item_invariant_saved page_num it content st :
  item_invariant st → it_url it ∉ seen st →
  item_invariant
    (save_article page_num it content
       (emit (Get (it_url it) 20 (Response 200 content)) (seen_add (it_url it) st))).
Proof.
  intros Hinv Hseen.
  destruct (fresh_url st (it_url it) Hinv Hseen) as [Hfresh Hnew].
  destruct Hinv as [H1 H2 H3 H4 H5 H6 H7].
  unfold Crawl.save_article.
  destruct (extract_teaser_or_body content) as [text meta] eqn:Etm.
  set (url := it_url it) in *.
  set (title := extract_title content).
  set (st1 := emit _ (emit _ (emit _ (seen_add url st)))).
  set (path := target_path hash page_num (base_name title) url st1).
  split; simpl; rewrite ?article_gets_snoc; simpl; rewrite ?app_nil_r.
  - by apply NoDup_snoc_fresh.
  - intros u. rewrite elem_of_union, elem_of_singleton, elem_of_app,
      list_elem_of_singleton, H2. tauto.
  - rewrite map_app. simpl. by apply NoDup_snoc_fresh.
  - intros u. rewrite map_app, elem_of_app. simpl.
    rewrite list_elem_of_singleton, H4. split.
    + intros [[c Hc]| ->].
      * exists c. rewrite !elem_of_app. tauto.
      * exists content. rewrite !elem_of_app, !list_elem_of_singleton. tauto.
    + intros [c Hc]. rewrite !elem_of_app, !list_elem_of_singleton in Hc.
      destruct Hc as [[[[Hc|Hc]|Hc]|Hc]|Hc]; try done.
      * left. by exists c.
      * right. congruence.
  - rewrite length_app. simpl. lia.
  - apply Forall_app. split; [done|]. constructor; [|done].
    split; simpl; [apply base_name_nonempty|].
    apply target_path_cases.
  - apply Forall_app. split.
    + eapply Forall_impl; [done|]. intros r Hr. simpl in Hr.
      apply lookup_insert_is_Some'. by right.
    + constructor; [|done]. simpl. by rewrite lookup_insert_eq.
Qed.

Lemma process_item_invariant page_num st it :
  item_invariant st → item_invariant (process_item page_num st it).
Proof.
  intros Hinv. unfold Crawl.process_item.
  case_bool_decide as Hseen; [done|].
  destruct (session_get _ (it_url it) 20) as [|code c].
  - apply item_invariant_emit; [done|]. by apply item_invariant_failed.
  - destruct (Z.eqb_spec code 200) as [->|Hcode]; simpl.
    + by apply item_invariant_saved.
    + apply item_invariant_emit; [done|]. apply item_invariant_failed; [done..|].
      congruence.
Qed.

(** What one article adds to the trace and to the seen set. *)
Lemma process_item_effect page_num st it :
  let st' := process_item page_num st it in
  (∃ new, trace st' = trace st ++ new ∧ Forall from_item new)
  ∧ seen st ⊆ seen st' ∧ it_url it ∈ seen st'.
Proof.
  cbv zeta. unfold Crawl.process_item.
  case_bool_decide as Hseen.
  { split; [exists []; by rewrite app_nil_r | done]. }
  destruct (session_get _ (it_url it) 20) as [|code c]; simpl.
  - split; [|set_solver]. eexists [_; _].
    rewrite <- (assoc_L (++)). split; [done | by repeat constructor].
  - destruct (Z.eqb_spec code 200) as [->|Hcode]; simpl.
    + unfold Crawl.save_article.
      destruct (extract_teaser_or_body c) as [text meta]. simpl.
      split; [|set_solver]. eexists [_; _; _; _].
      rewrite <- !(assoc_L (++)). split; [done | by repeat constructor].
    + split; [|set_solver]. eexists [_; _].
      rewrite <- (assoc_L (++)). split; [done | by repeat constructor].
Qed.

Lemma process_items_invariant page_num items : ∀ st,
  item_invariant st → item_invariant (foldl (process_item page_num) st items).
Proof.
  induction items as [|it items IH]; intros st Hst; [done|].
  simpl. by apply IH, process_item_invariant.
Qed.

Lemma process_items_effect page_num items : ∀ st,
  let st' := foldl (process_item page_num) st items in
  (∃ new, trace st' = trace st ++ new ∧ Forall from_item new)
  ∧ seen st ⊆ seen st' ∧ (∀ it, it ∈ items → it_url it ∈ seen st').
Proof.
  induction items as [|it items IH]; intros st; cbv zeta.
  { split; [exists []; by rewrite app_nil_r|]. split; [done|]. by intros it Hit%elem_of_nil. }
  simpl.
  destruct (process_item_effect page_num st it) as ((new1 & Ht1 & Hn1) & Hs1 & Hin1).
  destruct (IH (process_item page_num st it)) as ((new2 & Ht2 & Hn2) & Hs2 & Hin2).
  split; [|split].
  - exists (new1 ++ new2). rewrite Ht2, Ht1, (assoc_L (++)).
    split; [done | by apply Forall_app].
  - by etrans.
  - intros it' [->|Hit]%elem_of_cons; [by apply Hs2 | by apply Hin2].
Qed.

(** A listing request is not an event of an article. *)
Lemma listing_get_not_from_item lurl resp new :
  Forall from_item new → Get lurl 15 resp ∉ new.
Proof.
  intros Hnew Hin. rewrite Forall_forall in Hnew. by apply Hnew in Hin.
Qed.

Lemma process_page_invariant st page_num :
  item_invariant st ∧ listed_seen st →
  item_invariant (process_page st page_num) ∧ listed_seen (process_page st page_num).
Proof.
  intros [Hinv Hlisted]. unfold Crawl.process_page.
  set (lurl := listing_url year page_num).
  set (resp := session_get (requests st) lurl 15).
  assert (item_invariant (emit (Get lurl 15 resp) st)) as Hinv1
    by by apply item_invariant_emit.
  assert (∀ st', (∃ new, trace st' = trace st ++ [Get lurl 15 resp] ++ new
                         ∧ Forall from_item new) →
            seen st ⊆ seen st' →
            (∀ c it, resp = Response 200 c →
               it ∈ matched article_type (parse_listing urljoin c) →
               it_url it ∈ seen st') →
            listed_seen st') as Hkeep.
  { intros st' (new & Htr & Hnew) Hsub Hthis lurl' c it Hget Hit.
    rewrite Htr, !elem_of_app, list_elem_of_singleton in Hget.
    destruct Hget as [Hget|[Hget|Hget]].
    - apply Hsub. by eapply Hlisted.
    - injection Hget as _ Hresp. by eapply Hthis.
    - by apply listing_get_not_from_item in Hget. }
  destruct resp as [|code content] eqn:Eresp.
  { split; [by apply item_invariant_emit|]. apply Hkeep; [|done..].
    eexists [_]. split; [simpl; by rewrite <- (assoc_L (++)) | by repeat constructor]. }
  destruct (Z.eqb_spec code 200) as [->|Hcode]; simpl.
  2: { split; [by apply item_invariant_emit|]. apply Hkeep; [|done|].
       - eexists [_].
         split; [simpl; by rewrite <- (assoc_L (++)) | by repeat constructor].
       - intros c it [= ? _]. done. }
  destruct (matched article_type (parse_listing urljoin content)) as [|it0 items] eqn:Em.
  { split; [by apply item_invariant_emit, item_invariant_emit|].
    apply Hkeep; [|done|].
    - eexists [_; _].
      split; [simpl; by rewrite <- !(assoc_L (++)) | by repeat constructor].
    - intros c it [= <-]. rewrite Em. by intros ?%elem_of_nil. }
  set (st1 := emit (Get lurl 15 (Response 200 content)) st) in *.
  pose proof (process_items_invariant page_num (it0 :: items) st1 Hinv1) as Hinv2.
  destruct (process_items_effect page_num (it0 :: items) st1)
    as ((new & Htr & Hnew) & Hsub & Hin).
  split; [by apply item_invariant_emit|]. apply Hkeep.
  - exists (new ++ [Print (OkPage page_num (length (it0 :: items)))]).
    split; [|apply Forall_app; split; [done | by repeat constructor]].
    cbn [emit trace]. rewrite Htr. unfold st1. cbn [emit trace].
    by rewrite <- !(assoc_L (++)).
  - done.
  - intros c it [= <-]. rewrite Em. apply Hin.
Qed.

Lemma initial_invariant :
  item_invariant (initial files0) ∧ listed_seen (initial files0).
Proof.
  split.
  - split; simpl; try done; try apply NoDup_nil_2.
    + intros url. split; [by intros ?%elem_of_empty | by intros ?%elem_of_nil].
    + intros url. split; [by intros ?%elem_of_nil | by intros [c ?%elem_of_nil]].
  - intros lurl c it Hget. by apply elem_of_nil in Hget.
Qed.

(** The invariants hold of the world a run leaves. *)
Lemma crawl_invariant :
  let st := crawl urljoin hash session_get pages article_type year delay files0 in
  item_invariant st ∧ listed_seen st.
Proof.
  cbv zeta. unfold crawl.
  assert (∀ ps st, item_invariant st ∧ listed_seen st →
            item_invariant (foldl process_page st ps)
            ∧ listed_seen (foldl process_page st ps)) as Hfold.
  { induction ps as [|p ps IH]; intros st Hst; [done|].
    simpl. by apply IH, process_page_invariant. }
  destruct (Hfold (page_range pages) (initial files0) initial_invariant)
    as [Hinv Hlisted].
  split; [by apply item_invariant_emit|].
  intros lurl c it Hget Hit. simpl in *.
  apply elem_of_app in Hget as [Hget|Hget%list_elem_of_singleton]; [|done].
  by eapply Hlisted.
Qed.

(** C5. Within a run no URL is requested as an article twice; an item whose
    URL is in the seen set is skipped with no request, no console line and
    no change; every item kept from a listing that was received has been
    requested, hence exactly once however many pages list it; no URL has
    two records, and the URLs with a record are those whose request was
    answered with status 200, and the value returned counts the records.
    In the sample run two listing pages name the
    same article: it is requested once and saved once. *)
Theorem each_url_fetched_once :
  let st := crawl urljoin hash session_get pages article_type year delay files0 in
  NoDup (article_gets (trace st))
  ∧ (∀ st' page_num it, it_url it ∈ seen st' → process_item page_num st' it = st')
  ∧ (∀ lurl content it,
       Get lurl 15 (Response 200 content) ∈ trace st →
       it ∈ matched article_type (parse_listing urljoin content) →
       it_url it ∈ article_gets (trace st))
  ∧ NoDup (map r_url (meta_f st))
  ∧ (∀ url, url ∈ map r_url (meta_f st)
            ↔ ∃ content, Get url 20 (Response 200 content) ∈ trace st)
  ∧ scrape_nature urljoin hash session_get pages article_type year delay files0
    = Z.of_nat (length (meta_f st))
  ∧ article_gets (trace run_same_url) = [BASE_URL ++ lit "/articles/n1"]
  ∧ map r_url (meta_f run_same_url) = [BASE_URL ++ lit "/articles/n1"]
  ∧ saved run_same_url = 1%Z.
Proof.
  cbv zeta. destruct crawl_invariant as [[H1 H2 H3 H4 H5 H6 H7] Hlisted].
  split; [done|]. split; [intros st' page_num it; apply process_item_seen|].
  split; [|split; [done|split; [done|split; [done|by vm_compute]]]].
  intros lurl content it Hget Hit. apply H2. by eapply Hlisted.
Qed.

(** C6. An item of a parsed listing is kept for processing exactly when the
    type filter is empty or equals the declared type of the item. With the
    filter News and items declared News, Comment and without type, only
    the News item is kept and requested. *)
Theorem matched_exact (html : soup) :
  (∀ it, it ∈ matched article_type (parse_listing urljoin html)
         ↔ it ∈ parse_listing urljoin html
           ∧ (article_type = [] ∨ it_type it = Some article_type))
  ∧ map it_type (parse_listing join_path listing_three)
    = [Some (lit "News"); Some (lit "Comment"); None]
  ∧ matched (lit "News") (parse_listing join_path listing_three)
    = [{| it_url := BASE_URL ++ lit "/articles/n1"; it_type := Some (lit "News") |}]
  ∧ article_gets (trace run_news_only) = [BASE_URL ++ lit "/articles/n1"].
Proof.
  split; [|by vm_compute].
  intros it. unfold matched. rewrite list_elem_of_In, filter_In, <- list_elem_of_In.
  split; intros [Hin H]; (split; [done|]); by eapply type_matches_exact.
Qed.

Lemma suffixed_path_differs (stem suffix : str) :
  stem ++ lit "_" ++ suffix ++ lit ".txt" ≠ stem ++ lit ".txt".
Proof. intros H%(inj (app stem)). done. Qed.

(** C7, as stated, fails: in a process where the URL hashes to 26, the
    second of two articles with the same title is written under the suffix
    [1a], two hexadecimal digits. *)
Lemma collision_suffix_not_six_digits :
  map r_file (meta_f run_same_title)
  = [lit "Page_1/Foo_Bar.txt"; lit "Page_1/Foo_Bar_1a.txt"]
  ∧ collision_suffix hash26 (BASE_URL ++ lit "/articles/a2") = lit "1a"
  ∧ length (collision_suffix hash26 (BASE_URL ++ lit "/articles/a2")) ≠ 6%nat.
Proof. by vm_compute. Qed.

(** C7, amended. When the target path of an article exists, the article is
    written to the base name followed by an underscore and the suffix, the
    hexadecimal digits, without padding, of [abs(hash(url)) mod 16^6]: one
    to six of them. That path differs from the target path, the file at
    the target path keeps its content, and the record appended names the
    new path, which exists. Without padding: the suffix is the one
    unpadded numeral of the number, it starts with the digit 0 only when
    it is that digit alone, and so it is never a string such as 00001a,
    which has the right digits, value and length. *)
Theorem collision_path_suffixed page_num it content st old :
  let fname := base_name (extract_title content) in
  let filepath := page_dir page_num ++ lit "/" ++ fname ++ lit ".txt" in
  files st !! filepath = Some old →
  let st' := save_article page_num it content st in
  let suffix := collision_suffix hash (it_url it) in
  let filepath' := page_dir page_num ++ lit "/" ++ fname ++ lit "_" ++ suffix ++ lit ".txt" in
  (0 ≤ Z.abs (hash (it_url it)) mod 16 ^ 6 < 16 ^ 6)%Z
  ∧ Z.of_N (hex_value suffix) = (Z.abs (hash (it_url it)) mod 16 ^ 6)%Z
  ∧ Forall (λ c, is_hex_digit c = true) suffix
  ∧ (1 ≤ length suffix ≤ 6)%nat
  ∧ filepath' ≠ filepath
  ∧ files st' !! filepath = Some old
  ∧ (∃ text, text ≠ [] ∧ files st' = <[filepath' := text]> (files st))
  ∧ (∃ rec, meta_f st' = meta_f st ++ [rec]
            ∧ r_file rec = filepath' ∧ r_url rec = it_url it)
  ∧ unpadded_hex suffix (Z.to_N (Z.abs (hash (it_url it)) mod 16 ^ 6))
  ∧ (∀ s, unpadded_hex s (Z.to_N (Z.abs (hash (it_url it)) mod 16 ^ 6)) → s = suffix)
  ∧ (head suffix = Some 48 → suffix = lit "0")
  ∧ (∀ s, head s = Some 48 → s ≠ lit "0" → suffix ≠ s)
  ∧ ¬ unpadded_hex (lit "00001a") 26.
Proof.
  intros fname filepath Hold st' suffix filepath'.
  destruct (collision_suffix_spec hash (it_url it)) as (Hb & Hv & Hd & Hl).
  pose proof (collision_suffix_unpadded hash (it_url it)) as Hu. fold suffix in Hu.
  cut (filepath' ≠ filepath
       ∧ files st' !! filepath = Some old
       ∧ (∃ text, text ≠ [] ∧ files st' = <[filepath' := text]> (files st))
       ∧ (∃ rec, meta_f st' = meta_f st ++ [rec]
                 ∧ r_file rec = filepath' ∧ r_url rec = it_url it)).
  { intros (H1 & H2 & H3 & H4). do 9 (split; [done|]).
    split; [|split; [|split]].
    - intros s Hs. by apply (unpadded_hex_unique _ _ _ Hs Hu).
    - apply Hu.
    - intros s Hs Hne <-. by apply Hne, Hu.
    - intros (_ & _ & H & _). by specialize (H eq_refl). }
  assert (filepath' ≠ filepath) as Hne.
  { unfold filepath', filepath.
    rewrite !(assoc_L (++) (page_dir page_num) (lit "/") _).
    rewrite !(assoc_L (++) (page_dir page_num ++ lit "/") fname _).
    apply suffixed_path_differs. }
  split; [done|].
  unfold st', Crawl.save_article.
  destruct (extract_teaser_or_body content) as [text meta].
  fold fname. unfold target_path. cbn [emit files].
  fold filepath. rewrite bool_decide_eq_true_2 by by rewrite Hold.
  fold suffix. fold filepath'. cbn [emit save files meta_f].
  split; [by rewrite lookup_insert_ne|]. split.
  - eexists. split; [|done]. unfold Str.eqb. by case_bool_decide; [|destruct text].
  - eexists. split; [done|]. done.
Qed.

(** C9. The delay is not observed between every two requests: in the
    sample run the request for the first article follows the request for
    the listing page with no sleep in between. (Line 169 sleeps after a
    page without matches and line 214 after a saved article; nothing
    sleeps between line 157 and line 181, nor after a failed request.) *)
Theorem no_delay_after_listing :
  steps (trace run_one_article)
  = [Request (BASE_URL ++ lit "/nature/articles?sort=PubDate&page=1");
     Request (BASE_URL ++ lit "/articles/n1");
     Pause]
  ∧ delays_observed true (trace run_one_article) = false.
Proof. by vm_compute. Qed.

(** C10. Every record of a run names a file that exists and whose name
    starts with a non-empty base name, the one line 192 computes from the
    title: the sanitized title, or the literal [article] when
    sanitize_filename returns the empty string, as it does for the title
    [! !]. *)
Theorem saved_base_name_nonempty :
  let st := crawl urljoin hash session_get pages article_type year delay files0 in
  Forall (well_named hash) (meta_f st)
  ∧ Forall (λ r, is_Some (files st !! r_file r)) (meta_f st)
  ∧ (∀ title,
       base_name title ≠ []
       ∧ base_name title =
           if bool_decide (sanitize_filename title default_max_len = [])
           then lit "article"
           else sanitize_filename title default_max_len)
  ∧ sanitize_filename (lit "! !") default_max_len = []
  ∧ map r_title (meta_f run_untitled) = [lit "! !"]
  ∧ map r_file (meta_f run_untitled) = [lit "Page_1/article.txt"].
Proof.
  cbv zeta. destruct crawl_invariant as [[H1 H2 H3 H4 H5 H6 H7] _].
  split; [done|]. split; [done|]. split; [|by vm_compute].
  intros title. split; [apply base_name_nonempty|].
  unfold base_name, Str.eqb. by repeat case_bool_decide.
Qed.

End Run.

(** The amended C7 at work: the file [Page_1/Foo_Bar.txt] exists, and the
    article is written to [Page_1/Foo_Bar_1a.txt]. *)
Lemma collision_path_suffixed_sample :
  let st := {| seen := ∅; saved := 0;
               files := {[ lit "Page_1/Foo_Bar.txt" := lit "first" ]};
               meta_f := []; trace := [] |} in
  let it := {| it_url := BASE_URL ++ lit "/articles/a2"; it_type := None |} in
  let st' := save_article hash26 (8 # 10) 1 it (article_page "Foo Bar") st in
  files st !! lit "Page_1/Foo_Bar.txt" = Some (lit "first")
  ∧ files st' !! lit "Page_1/Foo_Bar.txt" = Some (lit "first")
  ∧ (∃ rec, meta_f st' = meta_f st ++ [rec]
            ∧ r_file rec = lit "Page_1/Foo_Bar_1a.txt"
            ∧ r_url rec = BASE_URL ++ lit "/articles/a2").
Proof.
  intros st it st'.
  assert (files st !! lit "Page_1/Foo_Bar.txt" = Some (lit "first")) as H
    by reflexivity.
  split; [exact H|].
  pose proof (collision_path_suffixed hash26 (8 # 10) 1 it (article_page "Foo Bar")
                st (lit "first") H) as (_ & _ & _ & _ & _ & Hkept & _ & Hrec & _).
  split; [exact Hkept | exact Hrec].
Defined.

End CrawlFacts.

(** * Further properties *)

(** ** sanitize_filename, beyond the default length *)

Module SanitizeCover.
Import Str Sanitize StrFacts SanitizeFacts.

#[local] Arguments mem : simpl never.
#[local] Arguments is_safe : simpl never.
#[local] Arguments is_word : simpl never.
#[local] Arguments is_alnum : simpl never.
#[local] Arguments isspace : simpl never.
#[local] Arguments N.eqb : simpl never.

(** What [lstrip] and [rstrip] drop is made of the class. *)
Lemma lstrip_split p s :
  ∃ k, s = k ++ lstrip p s ∧ Forall (λ c, p c = true) k.
Proof.
  induction s as [|c s (k & Hk & Hall)]; simpl.
  - by exists [].
  - destruct (p c) eqn:E.
    + exists (c :: k). split; [by rewrite Hk at 1 | by constructor].
    + by exists [].
Qed.

Lemma rstrip_split p s :
  ∃ k, s = rstrip p s ++ k ∧ Forall (λ c, p c = true) k.
Proof.
  destruct (lstrip_split p (reverse s)) as (k & Hk & Hall).
  exists (reverse k). split; [|by apply Forall_reverse].
  unfold rstrip. rewrite <- reverse_app, <- Hk. by rewrite reverse_involutive.
Qed.

Lemma filter_none (f : N → bool) s :
  Forall (λ c, f c = false) s → List.filter f s = [].
Proof. induction 1 as [|c s Hc _ IH]; simpl; [done | by rewrite Hc]. Qed.

Lemma filter_lstrip (f p : N → bool) s :
  (∀ c, p c = true → f c = false) →
  List.filter f (lstrip p s) = List.filter f s.
Proof.
  intros Hpf. destruct (lstrip_split p s) as (k & Hk & Hall).
  rewrite Hk at 2. rewrite List.filter_app, (filter_none f k); [done|].
  eapply Forall_impl; [done | done].
Qed.

Lemma filter_rstrip (f p : N → bool) s :
  (∀ c, p c = true → f c = false) →
  List.filter f (rstrip p s) = List.filter f s.
Proof.
  intros Hpf. destruct (rstrip_split p s) as (k & Hk & Hall).
  rewrite Hk at 2. rewrite List.filter_app, (filter_none f k), app_nil_r; [done|].
  eapply Forall_impl; [done | done].
Qed.

Lemma space_not_alnum c : isspace c = true → is_alnum c = false.
Proof.
  intros H. destruct (is_alnum c) eqn:E; [|done].
  apply alnum_not_space in E. congruence.
Qed.

Lemma underscore_not_alnum c : (95 =? c) = true → is_alnum c = false.
Proof. intros <-%N.eqb_eq. reflexivity. Qed.

(** Lines 36-39 keep the ASCII letters and digits of the title, all of
    them, in their order. *)
Lemma clean_alnum title :
  List.filter is_alnum (clean title) = List.filter is_alnum title.
Proof.
  unfold clean, strip, collapse_ws, PUNCT_TABLE.
  rewrite <- (filter_lstrip is_alnum isspace title space_not_alnum).
  rewrite <- (filter_rstrip is_alnum isspace (lstrip isspace title) space_not_alnum).
  generalize (rstrip isspace (lstrip isspace title)). intros s.
  generalize false. unfold translate_delete, replace_char.
  induction s as [|c s IH]; intros b; simpl; [done|].
  destruct (isspace c) eqn:Hws.
  - rewrite (space_not_alnum c Hws).
    destruct b; [apply IH|]. simpl. apply IH.
  - simpl. destruct (is_alnum c) eqn:Ha.
    + rewrite (alnum_not_punct c Ha). simpl.
      destruct (N.eqb_spec c 32) as [->|_]; [done|].
      rewrite (word_safe c (alnum_word c Ha)). simpl. by rewrite Ha, IH.
    + destruct (mem c punctuation); simpl; [apply IH|].
      destruct (N.eqb_spec c 32) as [->|_].
      * simpl. apply IH.
      * destruct (is_safe c); simpl; [by rewrite Ha|]; apply IH.
Qed.

Lemma lstrip_length p s : (length (lstrip p s) ≤ length s)%nat.
Proof. apply suffix_length, lstrip_suffix. Qed.

Lemma sub_ws_runs_length b s : (length (sub_ws_runs b s) ≤ length s)%nat.
Proof.
  revert b. induction s as [|c s IH]; intros b; simpl; [done|].
  destruct (isspace c); [destruct b|]; simpl;
    [specialize (IH true) | specialize (IH true) | specialize (IH false)]; lia.
Qed.

(** Cleaning never lengthens. *)
Lemma clean_length title : (length (clean title) ≤ length title)%nat.
Proof.
  unfold clean, strip, collapse_ws, translate_delete, replace_char.
  etrans; [apply List.filter_length_le|]. rewrite List.length_map.
  etrans; [apply List.filter_length_le|].
  etrans; [apply sub_ws_runs_length|].
  etrans; [apply rstrip_length | apply lstrip_length].
Qed.

(** X1. Whatever the maximum length, the name holds only letters, digits
    and underscores (never a hyphen, which line 38 deletes as punctuation
    before line 39 would keep it) and does not end in an underscore; with a
    maximum that is not negative it is no longer than the maximum. *)
Theorem sanitize_filename_any_max_len title max_len :
  let r := sanitize_filename title max_len in
  Forall (λ c, is_word c = true) r
  ∧ last r ≠ Some 95
  ∧ ((0 ≤ max_len)%Z → (length r ≤ Z.to_nat max_len)%nat).
Proof.
  cbv zeta. split; [apply sanitize_word|]. split.
  - intros H. by apply sanitize_last in H.
  - intros Hk. unfold sanitize_filename, finish.
    etrans; [apply rstrip_length|]. unfold slice_to.
    destruct (Z.leb_spec 0 max_len); [|lia]. rewrite length_take. lia.
Qed.

(** X2. With the default length the name is empty exactly when the cleaned
    title is not empty and its first 120 characters are all underscores:
    the default name of line 41 is only used for an empty cleaned title,
    and line 44 strips a name made of underscores down to nothing. *)
Theorem sanitize_filename_empty_iff title :
  (sanitize_filename title default_max_len = []
   ↔ clean title ≠ [] ∧ Forall (λ c, c = 95) (take 120 (clean title)))
  ∧ (clean title = [] → sanitize_filename title default_max_len = lit "untitled").
Proof.
  split; [|unfold sanitize_filename; by intros ->].
  unfold sanitize_filename, finish. rewrite slice_to_default.
  case_bool_decide as Hnil.
  { rewrite Hnil. split; [by vm_compute | by intros [? _]]. }
  destruct (is_reserved (upper (clean title))) eqn:Hres.
  - apply reserved_upper_shape in Hres as [Ha Hl].
    rewrite take_ge by (rewrite !length_app; simpl; lia).
    destruct (clean title) as [|c s] eqn:E; [done|].
    apply Forall_cons in Ha as [Hc Ha]. split.
    + intros H%rstrip_nil_all. apply Forall_cons in H as [_ H].
      apply Forall_app in H as [[H _]%Forall_cons _].
      apply underscore_not_alnum in H. congruence.
    + intros [_ H]. rewrite take_ge in H by (simpl in *; lia).
      apply Forall_cons in H as [-> _]. done.
  - split.
    + intros H%rstrip_nil_all. split; [done|].
      eapply Forall_impl; [done|]. by intros c ->%N.eqb_eq.
    + intros [_ H]. apply rstrip_all.
      eapply Forall_impl; [done|]. intros c ->. reflexivity.
Qed.

(** X3. A title of at most 120 characters with at least one ASCII letter
    or digit keeps, in its name, exactly its ASCII letters and digits, in
    their order and case: whatever else the steps remove or add is
    whitespace, punctuation, other characters, or underscores. *)
Theorem sanitize_filename_keeps_alnum title :
  (length title ≤ 120)%nat →
  List.filter is_alnum title ≠ [] →
  List.filter is_alnum (sanitize_filename title default_max_len)
  = List.filter is_alnum title.
Proof.
  intros Hlen Hne. rewrite <- (clean_alnum title) in *.
  pose proof (clean_length title) as Hcl.
  unfold sanitize_filename, finish. rewrite slice_to_default.
  rewrite (filter_rstrip is_alnum (N.eqb 95)) by apply underscore_not_alnum.
  case_bool_decide as Hnil; [by rewrite Hnil in Hne|].
  destruct (is_reserved (upper (clean title))) eqn:Hres.
  - apply reserved_upper_shape in Hres as [_ Hl].
    rewrite take_ge by (rewrite !length_app; simpl; lia).
    rewrite !List.filter_app. simpl. by rewrite app_nil_r.
  - rewrite take_ge by lia. done.
Qed.

(** X3 on a title with spaces, punctuation, a hyphen and an underscore. *)
Lemma sanitize_filename_keeps_alnum_sample :
  (length (lit "  Hello,   World! - x_y  ") ≤ 120)%nat
  ∧ List.filter is_alnum (lit "  Hello,   World! - x_y  ") ≠ []
  ∧ List.filter is_alnum
      (sanitize_filename (lit "  Hello,   World! - x_y  ") default_max_len)
    = lit "HelloWorldxy".
Proof.
  assert (length (lit "  Hello,   World! - x_y  ") ≤ 120)%nat as H1
    by (vm_compute; lia).
  assert (List.filter is_alnum (lit "  Hello,   World! - x_y  ") ≠ []) as H2
    by (by vm_compute).
  split; [exact H1|]. split; [exact H2|].
  exact (sanitize_filename_keeps_alnum (lit "  Hello,   World! - x_y  ") H1 H2).
Defined.

Lemma stable_name_last s c :
  stable_name s = true → Forall (λ c, is_word c = true) s →
  last s = Some c → c ≠ 95.
Proof.
  unfold stable_name. intros H Hw Hlast ->.
  apply andb_true_iff in H as [_ H]. apply orb_true_iff in H as [H|H].
  - apply andb_true_iff in H as [H%negb_true_iff _].
    assert (mem 95 s = true) as Hm; [|congruence].
    apply mem_spec. apply last_Some in Hlast as [l ->].
    apply elem_of_app. right. by left.
  - destruct s as [|a r]; [done|].
    apply andb_true_iff in H as [_ Hr].
    destruct r as [|b r]; [by vm_compute in Hr|].
    apply reserved_upper_shape in Hr as [Hr _].
    change (last (a :: b :: r)) with (last (b :: r)) in Hlast.
    by apply (alnum_last _ _ Hr) in Hlast.
Qed.

(** X4. The names sanitize_filename maps to themselves, among all strings:
    those of at most 120 letters, digits and underscores that are not
    empty and either hold no underscore and are not a reserved device
    name, or are one underscore followed by a reserved device name. *)
Theorem sanitize_filename_fixpoints s :
  sanitize_filename s default_max_len = s
  ↔ Forall (λ c, is_word c = true) s ∧ (length s ≤ 120)%nat
    ∧ stable_name s = true.
Proof.
  split.
  - intros H.
    pose proof (sanitize_word s default_max_len) as Hw.
    pose proof (sanitize_length s) as Hlen.
    pose proof (sanitize_last s default_max_len) as Hlast.
    rewrite H in Hw, Hlen, Hlast.
    split; [done|]. split; [done|]. by apply sanitize_fixpoint.
  - intros (Hw & Hlen & Hst).
    assert (∀ c, last s = Some c → c ≠ 95) as Hlast
      by (intros c; by apply stable_name_last).
    by apply (sanitize_fixpoint s Hw Hlen Hlast).
Qed.

End SanitizeCover.

(** ** Field extraction, further *)

Module ExtractCover.
Import Str Soup Extract Samples StrFacts ExtractFacts.

(** *** The suffix pattern *)

Lemma strip_prefix_app pre s r : strip_prefix pre s = Some r → s = pre ++ r.
Proof.
  revert s. induction pre as [|a pre IH]; intros s; simpl.
  - by intros [= ->].
  - destruct s as [|b s]; [done|].
    destruct (N.eqb_spec a b) as [->|]; [|done].
    intros H%IH. by rewrite H.
Qed.

(** A match starts, after whitespace, with a bar, and leaves nothing or
    the newline that ends the string. *)
Lemma match_nature_suffix_inv s rest :
  match_nature_suffix s = Some rest →
  rest = [] ∨ (rest = [10] ∧ last s = Some 10).
Proof.
  unfold match_nature_suffix. intros H.
  destruct (lstrip isspace s) as [|a s1] eqn:E1; [done|].
  destruct (strip_prefix (lit "Nature") (lstrip isspace s1)) as [after|] eqn:E2;
    [|repeat case_match; done].
  destruct (lstrip (λ c, negb (c =? 10)) after) as [|nl [|]] eqn:E3;
    [left|right|]; try (repeat case_match; simplify_eq; done).
  assert (rest = [nl]) as -> by (repeat case_match; simplify_eq; done).
  pose proof (lstrip_head _ _ _ _ E3) as Hnl.
  apply negb_false_iff, N.eqb_eq in Hnl as ->. split; [done|].
  destruct (lstrip_suffix (λ c, negb (c =? 10)) after) as [k1 Hk1].
  rewrite E3 in Hk1. apply strip_prefix_app in E2.
  destruct (lstrip_suffix isspace s1) as [k2 Hk2].
  destruct (lstrip_suffix isspace s) as [k3 Hk3].
  rewrite Hk3, E1, Hk2, E2, Hk1.
  rewrite !app_comm_cons, !(assoc_L (++)). apply last_snoc.
Qed.

Lemma match_nature_suffix_space c s :
  isspace c = true → match_nature_suffix (c :: s) = match_nature_suffix s.
Proof. intros H. unfold match_nature_suffix. simpl. by rewrite H. Qed.

Lemma sub_nature_suffix_nil s :
  sub_nature_suffix s = [] → s = [] ∨ match_nature_suffix s = Some [].
Proof.
  destruct s as [|c s]; [by left|]. simpl.
  destruct (match_nature_suffix (c :: s)) as [rest|]; [|done].
  intros ->. by right.
Qed.

Lemma ends_clean_tail c s : ends_clean (c :: s) → ends_clean s.
Proof.
  intros H x Hx. apply H. destruct s; [done | done].
Qed.

(** On a text without whitespace at its ends, removing the suffix leaves
    no whitespace at the ends: the whitespace before the bar belongs to the
    match. *)
Lemma sub_nature_suffix_ends_clean s :
  ends_clean s → ends_clean (sub_nature_suffix s).
Proof.
  induction s as [|c s IH]; intros Hs; [done|].
  cbn [sub_nature_suffix].
  destruct (match_nature_suffix (c :: s)) as [rest|] eqn:E.
  - apply match_nature_suffix_inv in E as [->|[-> Hl]]; [done|].
    by apply Hs in Hl.
  - pose proof (IH (ends_clean_tail c s Hs)) as IH'.
    intros x. destruct (sub_nature_suffix s) as [|d r] eqn:Er.
    + intros [= <-]. apply sub_nature_suffix_nil in Er as [->|Em].
      * by apply Hs.
      * destruct (isspace c) eqn:Hc; [|done].
        rewrite (match_nature_suffix_space c s Hc) in E. congruence.
    + change (last (c :: d :: r)) with (last (d :: r)). apply IH'.
Qed.

Lemma sub_nature_suffix_trimmed s : trimmed s → trimmed (sub_nature_suffix s).
Proof.
  intros [Hs He]. split; [|by apply sub_nature_suffix_ends_clean].
  destruct s as [|c s]; [done|]. cbn [sub_nature_suffix].
  destruct (match_nature_suffix (c :: s)) as [rest|] eqn:E.
  - apply match_nature_suffix_inv in E as [->|[-> Hl]]; [done|].
    by apply He in Hl.
  - intros x [= <-]. by apply Hs.
Qed.

Lemma match_nature_suffix_bar s rest :
  match_nature_suffix s = Some rest → 124 ∈ s.
Proof.
  unfold match_nature_suffix. intros H.
  destruct (lstrip_suffix isspace s) as [k Hk].
  destruct (lstrip isspace s) as [|a s1] eqn:E1; [done|].
  assert (a = 124) as -> by (repeat case_match; simplify_eq; done).
  rewrite Hk. apply elem_of_app. right. by left.
Qed.

Lemma match_nature_suffix_suffix s rest :
  match_nature_suffix s = Some rest → rest `suffix_of` s.
Proof.
  unfold match_nature_suffix. intros H.
  destruct (lstrip isspace s) as [|a s1] eqn:E1; [done|].
  destruct (strip_prefix (lit "Nature") (lstrip isspace s1)) as [after|] eqn:E2;
    [|repeat case_match; done].
  assert (rest `suffix_of` after) as H1.
  { pose proof (lstrip_suffix (λ c, negb (c =? 10)) after) as Hs.
    destruct (lstrip (λ c, negb (c =? 10)) after) as [|nl [|]] eqn:E3;
      repeat case_match; simplify_eq; done. }
  apply strip_prefix_app in E2.
  etrans; [exact H1|]. etrans; [exists (lit "Nature"); exact E2|].
  etrans; [apply lstrip_suffix|].
  etrans; [apply (suffix_cons_r s1 s1 a); done|].
  rewrite <- E1. apply lstrip_suffix.
Qed.

(** X18. Line 78 only cuts: a title text without a bar is returned as it
    is (so is the literal of the last fallback), and the result is never
    longer than the text; on a text without whitespace at its end it is a
    prefix of the text. *)
Theorem sub_nature_suffix_cuts s :
  (124 ∉ s → sub_nature_suffix s = s)
  ∧ (length (sub_nature_suffix s) ≤ length s)%nat
  ∧ (ends_clean s → sub_nature_suffix s `prefix_of` s).
Proof.
  split; [|split].
  - induction s as [|c s IH]; intros Hbar; [done|]. cbn [sub_nature_suffix].
    destruct (match_nature_suffix (c :: s)) as [rest|] eqn:E.
    { by apply match_nature_suffix_bar in E. }
    rewrite IH; [done|]. intros Hin. apply Hbar. by right.
  - induction s as [|c s IH]; [done|]. cbn [sub_nature_suffix].
    destruct (match_nature_suffix (c :: s)) as [rest|] eqn:E.
    + by apply suffix_length, match_nature_suffix_suffix.
    + simpl. lia.
  - induction s as [|c s IH]; intros Hs; [done|]. cbn [sub_nature_suffix].
    destruct (match_nature_suffix (c :: s)) as [rest|] eqn:E.
    + apply match_nature_suffix_inv in E as [->|[-> Hl]].
      * apply prefix_nil.
      * by apply Hs in Hl.
    + apply prefix_cons, IH. by eapply ends_clean_tail.
Qed.

Lemma title_from_meta_trimmed doc sels v :
  title_from_meta doc sels = Some v →
  v ≠ [] ∧ trimmed v ∧ lower v ≠ lit "content".
Proof.
  induction sels as [|[sel attr] rest IH]; simpl; [done|].
  destruct (select_one sel doc) as [tag|]; [|done].
  set (val := strip (or_empty (tag_get attr tag))).
  destruct (negb (Str.eqb val []) && negb (Str.eqb (lower val) (lit "content"))) eqn:E;
    [|done].
  intros [= <-]. apply andb_true_iff in E as [E1%negb_true_iff E2%negb_true_iff].
  unfold Str.eqb in *. apply bool_decide_eq_false in E1, E2.
  split; [done|]. split; [apply strip_trimmed | done].
Qed.

Lemma title_from_h1_trimmed doc sels v :
  title_from_h1 doc sels = Some v → v ≠ [] ∧ trimmed v.
Proof.
  induction sels as [|sel rest IH]; cbn [title_from_h1]; [done|].
  destruct (select_one sel doc) as [h1|]; [|done].
  destruct (negb (Str.eqb (get_text (lit " ") true h1) [])) eqn:E; [|done].
  intros [= <-]. apply negb_true_iff in E. unfold Str.eqb in E.
  apply bool_decide_eq_false in E. split; [done | apply get_text_trimmed].
Qed.

Lemma extract_title_is_trimmed doc : trimmed (extract_title doc).
Proof.
  unfold extract_title.
  destruct (title_from_meta doc title_meta_selectors) as [v|] eqn:Em.
  { by apply title_from_meta_trimmed in Em as (? & ? & _). }
  destruct (title_from_h1 doc title_h1_selectors) as [v|] eqn:Eh.
  { by apply title_from_h1_trimmed in Eh as (? & ?). }
  apply sub_nature_suffix_trimmed.
  destruct (find "title" [] doc); [apply get_text_trimmed|].
  split; intros c [= <-]; reflexivity.
Qed.

(** X5. extract_title never returns a string with whitespace at its start
    or at its end, whichever fallback produced it. A title taken from a
    meta tag or a heading is not empty, and one taken from a meta tag is
    not the word content in any letter case. *)
Theorem extract_title_trimmed doc :
  trimmed (extract_title doc)
  ∧ (title_from_meta doc title_meta_selectors ≠ None
     ∨ title_from_h1 doc title_h1_selectors ≠ None →
     extract_title doc ≠ [])
  ∧ (title_from_meta doc title_meta_selectors ≠ None →
     lower (extract_title doc) ≠ lit "content").
Proof.
  split; [apply extract_title_is_trimmed|]. unfold extract_title.
  destruct (title_from_meta doc title_meta_selectors) as [v|] eqn:Em.
  { apply title_from_meta_trimmed in Em as (? & ? & ?). by split. }
  destruct (title_from_h1 doc title_h1_selectors) as [v|] eqn:Eh.
  { apply title_from_h1_trimmed in Eh as (? & ?). by split. }
  split; [by intros [?|?] | done].
Qed.

(** *** The text *)

Lemma no_content_trimmed : NO_CONTENT ≠ [] ∧ trimmed NO_CONTENT.
Proof. split; [done|]. split; intros c [= <-]; reflexivity. Qed.

Lemma final_text_filled doc :
  let text := (extract_teaser_or_body doc).1 in
  text ≠ [] ∧ trimmed text.
Proof.
  cbv zeta. unfold extract_teaser_or_body. cbn [fst].
  rewrite body_from_first.
  pose proof (first_body_paragraphs_trimmed doc) as Hp.
  pose proof (find_teaser_trimmed doc) as Ht.
  rewrite (final_text_expected _ _ Hp Ht).
  destruct (first_body_paragraphs doc) as [|p ps].
  - case_bool_decide; [apply no_content_trimmed | by split].
  - split; [|by apply join_trimmed].
    apply join_nonempty. by apply Forall_cons in Hp as [[? _] _].
Qed.

(** X6. The text extract_teaser_or_body returns is never empty and has no
    whitespace at its start or end; stripping it changes nothing, so it is
    never blank. *)
Theorem final_text_never_blank doc :
  let text := (extract_teaser_or_body doc).1 in
  text ≠ [] ∧ trimmed text ∧ strip text = text.
Proof.
  cbv zeta. destruct (final_text_filled doc) as [H1 H2].
  split; [done|]. split; [done | by apply trimmed_strip].
Qed.

(** *** The metadata mapping *)

(** X7. The metadata mapping has no key besides published and type; the
    value under published is never the empty string; and the key type is
    present exactly when the document has an element for it (the meta tag
    [dc.type] or the span [article.type]), whatever that element holds. *)
Theorem meta_keys doc :
  let meta := (extract_teaser_or_body doc).2 in
  (∀ k, is_Some (meta !! k) → k = "published"%string ∨ k = "type"%string)
  ∧ meta !! "published"%string ≠ Some []
  ∧ (is_Some (meta !! "type"%string)
     ↔ select_one [[with_attr "name" "dc.type" (tag_ "meta")]] doc ≠ None
       ∨ select_one [[with_attr "data-test" "article.type" (tag_ "span")]] doc ≠ None).
Proof.
  cbv zeta. unfold extract_teaser_or_body. cbn [snd].
  split; [|split; [apply published_never_empty|]].
  - intros k. unfold extract_meta.
    repeat case_match; intros [v Hv];
      repeat (apply lookup_insert_Some in Hv as [[<- _]|[_ Hv]]; [by auto|]);
      by rewrite lookup_empty in Hv.
  - unfold extract_meta.
    destruct (select_one [[with_attr "name" "dc.type" _]] doc) as [t|] eqn:E1.
    { rewrite lookup_insert_eq. split; [by left | by eexists]. }
    destruct (select_one [[with_attr "data-test" "article.type" _]] doc) as [t|] eqn:E2.
    { rewrite lookup_insert_eq. split; [by right | by eexists]. }
    split; [|by intros [?|?]].
    intros [v Hv]. exfalso.
    repeat case_match; simplify_map_eq.
Qed.

(** *** The listing *)

Lemma omap_length_le {A B} (f : A → option B) (l : list A) :
  (length (omap f l) ≤ length l)%nat.
Proof.
  induction l as [|x l IH]; [done|]. cbn. destruct (f x); cbn; lia.
Qed.

(** X8. Every item of a parsed listing has a URL that [urljoin] made from
    the base URL and a non-empty [href], and a declared type, when it has
    one, without whitespace at its ends; there are at most as many items as
    the page has article elements, since an article without a usable link
    is skipped. *)
Theorem parse_listing_items urljoin html :
  Forall (λ it, (∃ href, href ≠ [] ∧ it_url it = urljoin BASE_URL href)
                ∧ (∀ x, it_type it = Some x → trimmed x))
    (parse_listing urljoin html)
  ∧ (length (parse_listing urljoin html) ≤ length (find_all "article" [] html))%nat.
Proof.
  split; [|apply omap_length_le].
  apply Forall_forall. intros it Hit. split.
  - unfold parse_listing in Hit.
    apply list_elem_of_omap in Hit as (art & _ & H).
    unfold listing_item in H.
    destruct (tag_find "a" _ art) as [link|]; [|done].
    destruct (tag_get "href" link) as [href|]; [|done].
    destruct (Str.eqb href []) eqn:E; [done|].
    injection H as <-. exists href. split; [|done].
    unfold Str.eqb in E. by apply bool_decide_eq_false in E.
  - intros x. by eapply parse_listing_type.
Qed.

Example listing_without_link_skipped :
  parse_listing join_path
    [Elem "article" [] [Elem "a" [("href"%string, lit "/articles/z")] [Text (lit "no tracking attribute")]];
     Elem "article" [] [Elem "a" [("href"%string, []); ("data-track-action"%string, lit "view article")] []];
     summary "/articles/ok" None]
  = [{| it_url := BASE_URL ++ lit "/articles/ok"; it_type := None |}].
Proof. reflexivity. Qed.

End ExtractCover.

(** ** The crawl loop, further *)

Module CrawlCover.
Import Str Sanitize Soup Extract Samples Crawl SampleRuns Main.
Import StrFacts SanitizeFacts ExtractFacts CrawlFacts ExtractCover.

Lemma listing_gets_app tr tr' :
  listing_gets (tr ++ tr') = listing_gets tr ++ listing_gets tr'.
Proof. unfold listing_gets. by rewrite omap_app. Qed.

Lemma listing_gets_from_item new :
  Forall from_item new → listing_gets new = [].
Proof.
  induction 1 as [|e new He _ IH]; [done|].
  change (e :: new) with ([e] ++ new). rewrite listing_gets_app, IH, app_nil_r.
  destruct e as [url t r| |]; [|done..]. simpl in He. by subst t.
Qed.

Section Run.

Variable urljoin : str → str → str.
Variable hash : str → Z.
Variable session_get : nat → str → Z → response.
Variable pages : Z.
Variable article_type : str.
Variable year : option Z.
Variable delay : Q.
Variable files0 : gmap str str.

Abbreviation process_item := (process_item hash session_get delay).
Abbreviation save_article := (save_article hash delay).
Abbreviation process_page := (process_page urljoin hash session_get article_type year delay).
Abbreviation crawl := (crawl urljoin hash session_get pages article_type year delay files0).

(** The second check of the text (line 203) never replaces it: the text
    extracted is never blank. *)
Lemma save_article_eq page_num it content st :
  save_article page_num it content st =
    let st1 := emit (Print (DebugLength (length (extract_teaser_or_body content).1) (it_url it)))
                 (emit (Print (DebugTitle (extract_title content)
                                  (base_name (extract_title content)))) st) in
    let filepath := target_path hash page_num (base_name (extract_title content))
                      (it_url it) st1 in
    emit (Sleep delay)
      (save filepath (extract_teaser_or_body content).1
         (record_of page_num it content filepath) st1).
Proof.
  unfold Crawl.save_article, record_of.
  destruct (final_text_filled content) as [Hne Htr].
  destruct (extract_teaser_or_body content) as [text meta]. cbn [fst snd] in *.
  rewrite (trimmed_strip text Htr), (eqb_nil_false text Hne). done.
Qed.

(** *** Listing requests *)

Lemma process_items_listing_gets page_num items st :
  listing_gets (trace (foldl (process_item page_num) st items))
  = listing_gets (trace st).
Proof.
  destruct (process_items_effect urljoin hash session_get article_type delay
              page_num items st)
    as ((new & -> & Hnew) & _).
  by rewrite listing_gets_app, (listing_gets_from_item new Hnew), app_nil_r.
Qed.

Lemma process_page_listing_gets st page_num :
  listing_gets (trace (process_page st page_num))
  = listing_gets (trace st) ++ [listing_url year page_num].
Proof.
  unfold Crawl.process_page.
  destruct (session_get (requests st) (listing_url year page_num) 15)
    as [|code content]; cbn [emit trace].
  { by rewrite !listing_gets_app, app_nil_r. }
  destruct (negb (code =? 200)%Z); cbn [emit trace].
  { by rewrite !listing_gets_app, app_nil_r. }
  destruct (matched article_type (parse_listing urljoin content)) as [|it0 items];
    cbn [emit trace].
  { by rewrite !listing_gets_app, !app_nil_r. }
  rewrite listing_gets_app, process_items_listing_gets. cbn [emit trace].
  by rewrite listing_gets_app, app_nil_r.
Qed.

Lemma crawl_listing_gets :
  listing_gets (trace crawl) = map (listing_url year) (page_range pages).
Proof.
  unfold Crawl.crawl. cbn [emit trace]. rewrite listing_gets_app, app_nil_r.
  assert (∀ ps st, listing_gets (trace (foldl process_page st ps))
                   = listing_gets (trace st) ++ map (listing_url year) ps) as H.
  { induction ps as [|p ps IH]; intros st; simpl; [by rewrite app_nil_r|].
    by rewrite IH, process_page_listing_gets, <- (assoc_L (++)). }
  by rewrite H.
Qed.

Lemma page_range_nodup : NoDup (page_range pages).
Proof.
  unfold page_range. apply NoDup_fmap_2; [apply Nat2Z.inj'|]. apply NoDup_seq.
Qed.

Lemma page_range_bounds p : p ∈ page_range pages → (1 ≤ p ≤ pages)%Z.
Proof.
  unfold page_range.
  intros (n & -> & Hn%list_elem_of_In%in_seq)%list_elem_of_fmap. lia.
Qed.



(** X9. A run that reaches its end (every request it makes is answered
    with some status or raises [requests.RequestException], and nothing
    else is raised) has requested every listing page from 1 to [pages]
    once, in order: a page that fails or is answered with another status
    than 200 does not stop the loop and is not retried. With [pages] at
    most 0 the run makes no request, prints only its summary, appends no
    record, returns 0 and leaves every path other than the records file
    as it was. *)
Theorem listing_requests :
  listing_gets (trace crawl) = map (listing_url year) (page_range pages)
  ∧ length (page_range pages) = Z.to_nat pages
  ∧ NoDup (page_range pages)
  ∧ Forall (λ p, (1 ≤ p ≤ pages)%Z) (page_range pages)
  ∧ ((pages ≤ 0)%Z →
     trace crawl = [Print (Done 0)]
     ∧ meta_f crawl = []
     ∧ scrape_nature urljoin hash session_get pages article_type year delay files0 = 0%Z
     ∧ ∀ path, path ≠ METADATA_FILE → files crawl !! path = files0 !! path).
Proof.
  split; [apply crawl_listing_gets|]. split; [|split; [apply page_range_nodup|split]].
  - unfold page_range. by rewrite List.length_map, List.length_seq.
  - apply Forall_forall. intros p. apply page_range_bounds.
  - intros Hp. unfold Crawl.scrape_nature, Crawl.crawl, page_range.
    by replace (Z.to_nat pages) with 0%nat by lia.
Qed.

(** *** An induction principle for runs

    What holds of the initial world and is kept by every change a run
    makes holds of the world the run leaves. The changes are: a console
    line, a request (with the timeout of a listing or of an article), a
    URL added to the seen set, the notice and sleep of a page without
    matches, and the saving of an article followed by its sleep; the last
    comes with the listing item and the two answers it stems from. *)

Section Induction.

Variable P : state → Prop.

Hypothesis P_initial : P (initial files0).
Hypothesis P_print : ∀ st m,
  (∀ p, m ≠ InfoNoMatches p) → P st → P (emit (Print m) st).
Hypothesis P_get : ∀ st url t r,
  (t = 15 ∨ t = 20)%Z → P st → P (emit (Get url t r) st).
Hypothesis P_seen : ∀ st url, P st → P (seen_add url st).
Hypothesis P_no_match : ∀ st p,
  P st → P (emit (Sleep delay) (emit (Print (InfoNoMatches p)) st)).
Hypothesis P_save : ∀ st page_num lc it content,
  page_num ∈ page_range pages →
  Get (listing_url year page_num) 15 (Response 200 lc) ∈ trace st →
  it ∈ matched article_type (parse_listing urljoin lc) →
  Get (it_url it) 20 (Response 200 content) ∈ trace st →
  P st →
  let filepath := target_path hash page_num (base_name (extract_title content))
                    (it_url it) st in
  P (emit (Sleep delay)
       (save filepath (extract_teaser_or_body content).1
          (record_of page_num it content filepath) st)).

Lemma item_step st page_num lc it :
  page_num ∈ page_range pages →
  Get (listing_url year page_num) 15 (Response 200 lc) ∈ trace st →
  it ∈ matched article_type (parse_listing urljoin lc) →
  P st → P (process_item page_num st it).
Proof.
  intros Hpage Hlisting Hit HP. unfold Crawl.process_item.
  case_bool_decide; [done|].
  set (st_a := seen_add (it_url it) st).
  assert (P st_a) as Ha by by apply P_seen.
  destruct (session_get (requests st_a) (it_url it) 20) as [|code content].
  { apply P_print; [done|]. apply P_get; [by right | done]. }
  destruct (Z.eqb_spec code 200) as [->|Hcode]; cbn [negb].
  2: { apply P_print; [done|]. apply P_get; [by right | done]. }
  rewrite save_article_eq. cbv zeta.
  apply (P_save _ page_num lc it content); [done| | done | |].
  - cbn [emit trace]. rewrite !elem_of_app. tauto.
  - cbn [emit trace]. rewrite !elem_of_app, !list_elem_of_singleton. tauto.
  - apply P_print; [done|]. apply P_print; [done|].
    apply P_get; [by right | done].
Qed.

Lemma items_step page_num lc items : ∀ st,
  page_num ∈ page_range pages →
  Get (listing_url year page_num) 15 (Response 200 lc) ∈ trace st →
  (∀ it, it ∈ items → it ∈ matched article_type (parse_listing urljoin lc)) →
  P st → P (foldl (process_item page_num) st items).
Proof.
  induction items as [|it items IH]; intros st Hpage Hlisting Hits HP; [done|].
  simpl. apply IH; [done| | |].
  - destruct (process_item_effect urljoin hash session_get article_type delay
                page_num st it) as ((new & -> & _) & _).
    apply elem_of_app. by left.
  - intros it' Hit'. apply Hits. by right.
  - eapply item_step; [done..| |done]. apply Hits. by left.
Qed.

Lemma page_step st page_num :
  page_num ∈ page_range pages → P st → P (process_page st page_num).
Proof.
  intros Hpage HP. unfold Crawl.process_page.
  set (lurl := listing_url year page_num).
  destruct (session_get (requests st) lurl 15) as [|code lc].
  { apply P_print; [done|]. apply P_get; [by left | done]. }
  destruct (Z.eqb_spec code 200) as [->|Hcode]; cbn [negb].
  2: { apply P_print; [done|]. apply P_get; [by left | done]. }
  destruct (matched article_type (parse_listing urljoin lc)) as [|it0 items] eqn:Em.
  { apply P_no_match. apply P_get; [by left | done]. }
  apply P_print; [done|].
  apply (items_step page_num lc); [done| | |].
  - cbn [emit trace]. apply elem_of_app. right. by left.
  - intros it Hit. by rewrite Em.
  - apply P_get; [by left | done].
Qed.

Lemma crawl_ind : P crawl.
Proof.
  unfold Crawl.crawl. apply P_print; [done|].
  assert (∀ ps st, (∀ p, p ∈ ps → p ∈ page_range pages) → P st →
            P (foldl process_page st ps)) as H.
  { induction ps as [|p ps IH]; intros st Hps HP; [done|].
    simpl. apply IH; [intros q Hq; apply Hps; by right|].
    apply page_step; [apply Hps; by left | done]. }
  by apply H.
Qed.

End Induction.

(** *** Files *)


(** *** Records *)

Lemma matched_type lc it :
  it ∈ matched article_type (parse_listing urljoin lc) →
  it ∈ parse_listing urljoin lc
  ∧ (article_type = [] ∨ it_type it = Some article_type).
Proof.
  unfold matched. intros [Hin H]%list_elem_of_In%filter_In.
  apply list_elem_of_In in Hin. split; [done|].
  by eapply type_matches_exact.
Qed.

(** X11. Every record of a run is the record of lines 208-210 for an item
    of a listing page that was answered with status 200, extracted from
    the answer, with status 200, to the request for the URL of the item.
    Its page number lies between 1 and [pages], its listed type is the
    type filter when there is one, its title has no whitespace at the
    ends, and its publication date, when present, is not empty. *)
Theorem records_provenance :
  Forall (λ r,
      (1 ≤ r_page r ≤ pages)%Z
      ∧ (article_type = [] ∨ r_listed_type r = Some article_type)
      ∧ trimmed (r_title r)
      ∧ r_published r ≠ Some []
      ∧ ∃ lc it content filepath,
          Get (listing_url year (r_page r)) 15 (Response 200 lc) ∈ trace crawl
          ∧ it ∈ parse_listing urljoin lc
          ∧ Get (it_url it) 20 (Response 200 content) ∈ trace crawl
          ∧ r = record_of (r_page r) it content filepath)
    (meta_f crawl).
Proof.
  apply (crawl_ind (λ st, Forall (λ r,
      (1 ≤ r_page r ≤ pages)%Z
      ∧ (article_type = [] ∨ r_listed_type r = Some article_type)
      ∧ trimmed (r_title r)
      ∧ r_published r ≠ Some []
      ∧ ∃ lc it content filepath,
          Get (listing_url year (r_page r)) 15 (Response 200 lc) ∈ trace st
          ∧ it ∈ parse_listing urljoin lc
          ∧ Get (it_url it) 20 (Response 200 content) ∈ trace st
          ∧ r = record_of (r_page r) it content filepath) (meta_f st))).
  - constructor.
  - intros st m _ HP. cbn [emit meta_f trace].
    eapply Forall_impl; [done|]. intros r (? & ? & ? & ? & lc & it & c & fp & ? & ? & ? & ?).
    do 4 (split; [done|]). exists lc, it, c, fp. rewrite !elem_of_app. tauto.
  - intros st url t resp _ HP. cbn [emit meta_f trace].
    eapply Forall_impl; [done|]. intros r (? & ? & ? & ? & lc & it & c & fp & ? & ? & ? & ?).
    do 4 (split; [done|]). exists lc, it, c, fp. rewrite !elem_of_app. tauto.
  - done.
  - intros st p HP. cbn [emit meta_f trace].
    eapply Forall_impl; [done|]. intros r (? & ? & ? & ? & lc & it & c & fp & ? & ? & ? & ?).
    do 4 (split; [done|]). exists lc, it, c, fp. rewrite !elem_of_app. tauto.
  - intros st page_num lc it content Hpage Hlisting Hit Hget HP filepath.
    cbn [emit save meta_f trace]. apply Forall_app. split.
    + eapply Forall_impl; [done|].
      intros r (? & ? & ? & ? & lc' & it' & c & fp & ? & ? & ? & ?).
      do 4 (split; [done|]). exists lc', it', c, fp. rewrite !elem_of_app. tauto.
    + constructor; [|done]. cbn [record_of r_page r_listed_type r_title r_published].
      apply matched_type in Hit as [Hin Hty].
      split; [by apply page_range_bounds|]. split; [done|].
      split; [apply extract_title_is_trimmed|].
      split; [apply published_never_empty|].
      exists lc, it, content, filepath. rewrite !elem_of_app. tauto.
Qed.

(** *** Sleeps *)

Lemma sleeps_snoc tr e : sleeps (tr ++ [e]) = sleeps tr ++ sleeps [e].
Proof. unfold sleeps. by rewrite omap_app. Qed.

Lemma no_match_notices_snoc tr e :
  no_match_notices (tr ++ [e]) = (no_match_notices tr + no_match_notices [e])%nat.
Proof. unfold no_match_notices. by rewrite List.filter_app, length_app. Qed.

(** X12. Every sleep of a run lasts the configured delay, and there are as
    many sleeps as saved articles plus pages reported without matches: a
    failed request, a skipped URL and a page with matches add none. *)
Theorem sleeps_counted :
  Forall (λ d, d = delay) (sleeps (trace crawl))
  ∧ Z.of_nat (length (sleeps (trace crawl)))
    = (scrape_nature urljoin hash session_get pages article_type year delay files0
       + Z.of_nat (no_match_notices (trace crawl)))%Z.
Proof.
  unfold scrape_nature.
  apply (crawl_ind (λ st,
    Forall (λ d, d = delay) (sleeps (trace st))
    ∧ Z.of_nat (length (sleeps (trace st)))
      = (saved st + Z.of_nat (no_match_notices (trace st)))%Z)).
  - by split.
  - intros st m Hm [H1 H2]. cbn [emit trace saved].
    rewrite sleeps_snoc, no_match_notices_snoc, app_nil_r. split; [done|].
    replace (no_match_notices [Print m]) with 0%nat; [by rewrite Nat.add_0_r|].
    destruct m; try done. by destruct (Hm page_num).
  - intros st url t r _ [H1 H2]. cbn [emit trace saved].
    rewrite sleeps_snoc, no_match_notices_snoc, app_nil_r. split; [done|].
    by rewrite Nat.add_0_r.
  - done.
  - intros st p [H1 H2]. cbn [emit trace saved].
    rewrite !sleeps_snoc, !no_match_notices_snoc, app_nil_r. cbn. split.
    + apply Forall_app. split; [done | by repeat constructor].
    + rewrite length_app. simpl. lia.
  - intros st page_num lc it content _ _ _ _ [H1 H2] filepath.
    cbn [emit save trace saved].
    rewrite !sleeps_snoc, !no_match_notices_snoc. cbn. split.
    + apply Forall_app. split; [done | by repeat constructor].
    + rewrite length_app. simpl. lia.
Qed.

End Run.

(** *** Paths *)

Lemma hex_digit_word c : is_hex_digit c = true → is_word c = true.
Proof.
  unfold is_hex_digit, is_digit. intros H. apply is_word_spec.
  apply orb_true_iff in H as [H|H];
    apply andb_true_iff in H as [H1%N.leb_le H2%N.leb_le]; lia.
Qed.

Lemma base_name_word title :
  Forall (λ c, is_word c = true) (base_name title)
  ∧ (length (base_name title) ≤ 120)%nat.
Proof.
  unfold base_name. destruct (Str.eqb _ []).
  - split; [|vm_compute; lia].
    apply Forall_forall. intros c Hc%list_elem_of_In.
    assert (forallb is_word (lit "article") = true) as Hu by reflexivity.
    rewrite forallb_forall in Hu. by apply Hu.
  - split; [apply sanitize_word | apply sanitize_length].
Qed.

(** X16. Every file a run writes lies directly in the directory of its
    page: its path is the page directory, a slash, a name of 1 to 127
    letters, digits and underscores, and the extension [.txt]; whatever
    the title of the article, the name holds no slash, no dot and no
    other character. *)
Theorem written_paths_safe urljoin hash session_get pages article_type year delay files0 :
  Forall (λ r, ∃ name,
      r_file r = page_dir (r_page r) ++ lit "/" ++ name ++ lit ".txt"
      ∧ Forall (λ c, is_word c = true) name
      ∧ (1 ≤ length name ≤ 127)%nat)
    (meta_f (crawl urljoin hash session_get pages article_type year delay files0)).
Proof.
  destruct (crawl_invariant urljoin hash session_get pages article_type year
              delay files0) as [[_ _ _ _ _ Hnamed _] _].
  eapply Forall_impl; [done|]. intros r [Hne Hfile]. cbv zeta in *.
  destruct (base_name_word (r_title r)) as [Hw Hl].
  assert (1 ≤ length (base_name (r_title r)))%nat as Hpos
    by (destruct (base_name (r_title r)); [done | simpl; lia]).
  destruct Hfile as [Hfile|Hfile].
  - exists (base_name (r_title r)).
    split; [by rewrite Hfile, <- !(assoc_L (++)) | split; [done | lia]].
  - destruct (collision_suffix_spec hash (r_url r)) as (_ & _ & Hd & Hs).
    exists (base_name (r_title r) ++ lit "_" ++ collision_suffix hash (r_url r)).
    split; [by rewrite Hfile, <- !(assoc_L (++))|]. split.
    + apply Forall_app. split; [done|]. apply Forall_app. split.
      * by repeat constructor.
      * eapply Forall_impl; [done|]. apply hex_digit_word.
    + rewrite !length_app. simpl. lia.
Qed.

(** *** Listing URLs *)

Lemma lit_inj s1 s2 : lit s1 = lit s2 → s1 = s2.
Proof.
  unfold lit. intros H.
  assert (String.list_ascii_of_string s1 = String.list_ascii_of_string s2) as H'.
  { revert H. generalize (String.list_ascii_of_string s1)
      (String.list_ascii_of_string s2).
    induction l as [|a l IH]; intros [|b l']; simpl; try done.
    intros [= Hab Hl]. f_equal; [|by apply IH].
    by rewrite <- (Ascii.ascii_N_embedding a), <- (Ascii.ascii_N_embedding b), Hab. }
  by rewrite <- (String.string_of_list_ascii_of_string s1),
    <- (String.string_of_list_ascii_of_string s2), H'.
Qed.

Lemma to_int_not_nil z : Z.to_int z ≠ Decimal.Pos Decimal.Nil ∧ Z.to_int z ≠ Decimal.Neg Decimal.Nil.
Proof.
  split; intros H; pose proof (f_equal Z.of_int H) as H';
    rewrite DecimalZ.of_to in H'; simpl in H'; subst z; by vm_compute in H.
Qed.

Lemma dec_inj p q : dec p = dec q → p = q.
Proof.
  unfold dec. intros H%lit_inj.
  apply (f_equal NilZero.int_of_string) in H.
  destruct (to_int_not_nil p), (to_int_not_nil q).
  rewrite !NilZero.isi in H by done. injection H as H.
  apply (f_equal Z.of_int) in H. by rewrite !DecimalZ.of_to in H.
Qed.

(** X17. The URL of a listing page determines its number: two pages never
    share a URL, so a run requests no listing URL twice. A year of 0 is
    treated as no year (line 152 tests its truth value). *)
Theorem listing_urls_distinct urljoin hash session_get pages article_type year delay files0 :
  (∀ p q, listing_url year p = listing_url year q → p = q)
  ∧ NoDup (listing_gets
             (trace (crawl urljoin hash session_get pages article_type year
                       delay files0)))
  ∧ (∀ p, listing_url (Some 0%Z) p = listing_url None p).
Proof.
  assert (∀ p q, listing_url year p = listing_url year q → p = q) as Hinj.
  { intros p q. unfold listing_url.
    rewrite !(assoc_L (++) _ (lit "&page=")).
    intros H%(inj (app _)). by apply dec_inj. }
  split; [done|]. split; [|done].
  rewrite crawl_listing_gets.
  apply NoDup_fmap_2; [|apply page_range_nodup]. intros p q. apply Hinj.
Qed.

(** *** The collision suffix *)

(** X13. In one process two URLs get the same collision suffix exactly
    when their hashes agree after the reduction [abs(..) mod 16^6]: the
    suffix loses nothing of the reduced hash. *)
Theorem collision_suffix_injective hash url1 url2 :
  collision_suffix hash url1 = collision_suffix hash url2
  ↔ (Z.abs (hash url1) mod 16 ^ 6 = Z.abs (hash url2) mod 16 ^ 6)%Z.
Proof.
  destruct (collision_suffix_spec hash url1) as (_ & H1 & _).
  destruct (collision_suffix_spec hash url2) as (_ & H2 & _).
  split.
  - intros H. by rewrite <- H1, <- H2, H.
  - intros H. unfold collision_suffix. by rewrite H.
Qed.

(** *** Saving one article *)

(** X14. Saving a fetched article writes, at the path chosen, exactly the
    text extract_teaser_or_body returned (the second emptiness check of
    line 203 never replaces it), leaves every other file and the seen set
    alone, appends one record naming that path, and adds one to the
    count. *)
Theorem save_article_effect hash delay page_num it content st :
  let st' := save_article hash delay page_num it content st in
  let filepath := target_path hash page_num (base_name (extract_title content))
                    (it_url it) st in
  files st' = <[filepath := (extract_teaser_or_body content).1]> (files st)
  ∧ meta_f st' = meta_f st ++ [record_of page_num it content filepath]
  ∧ saved st' = (saved st + 1)%Z
  ∧ seen st' = seen st.
Proof. cbv zeta. by rewrite save_article_eq. Qed.

(** *** main *)

Lemma strip_blank s : Forall (λ c, isspace c = true) s → strip s = [].
Proof. intros H. unfold strip. by rewrite lstrip_all. Qed.

Lemma matched_no_filter listing : matched [] listing = listing.
Proof.
  unfold matched. induction listing as [|it l IH]; [done|].
  simpl. by rewrite IH.
Qed.

(** X15. main strips the type filter: a filter made of whitespace only is
    no filter, the run is the one of the empty filter and keeps every item
    of every listing. *)
Theorem main_blank_type urljoin hash session_get files0 a :
  Forall (λ c, isspace c = true) (a_type a) →
  main urljoin hash session_get files0 a
  = crawl urljoin hash session_get (a_pages a) [] (a_year a) (a_delay a) files0
  ∧ ∀ listing, matched (strip (a_type a)) listing = listing.
Proof.
  intros H. unfold main. rewrite (strip_blank _ H).
  split; [done | apply matched_no_filter].
Qed.

(** X15 on the command line [--pages 1 --type "  "]. *)
Lemma main_blank_type_sample :
  let a := {| a_pages := 1; a_type := lit "  "; a_year := None; a_delay := 8 # 10 |} in
  Forall (λ c, isspace c = true) (a_type a)
  ∧ main join_path hash26 (site listing_three (article_page "Foo Bar")) ∅ a
    = crawl join_path hash26 (site listing_three (article_page "Foo Bar"))
        1 [] None (8 # 10) ∅.
Proof.
  intros a.
  assert (Forall (λ c, isspace c = true) (a_type a)) as H
    by (by repeat constructor).
  split; [exact H|].
  exact (proj1 (main_blank_type join_path hash26
                  (site listing_three (article_page "Foo Bar")) ∅ a H)).
Defined.

End CrawlCover.
